(** * Verification of the transaction model of [tx/transaction.go]

    A shallow embedding of the transaction type of package [tx]: the
    body, its memoised derived values, signer recovery through the
    process-wide LRU cache, intrinsic gas, the gas price and the
    delay-based overall gas price.

    Conventions.
    - A Go [uintN] is a [Z] in [0, 2^N); wrap-around is written out with
      [Z.modulo].  A [uint8]/[byte] field is a [Byte.byte].
    - A [*big.Int] is a [Z]; [big.Int.Div] is Euclidean division and
      panics on a zero divisor.
    - A Go [(value, error)] result is a pair [(value, option error)].
    - A method with receiver [t *Transaction] is a state transformer on a
      [world]: the receiver (body and cache) and the global [signerCache].
      A run-time panic ends the computation ([Panic]).
    - [defer]red stores are sequenced explicitly before each return. *)

From Stdlib Require Import ZArith List Lia Bool.
From Stdlib Require Import Init.Byte Strings.Byte.
From stdpp Require Import base option list gmap.

Local Open Scope Z_scope.

Set Warnings "-register-all".

(* ====================================================================== *)
(** * Machine integers (go-ethereum [common/math]) *)
(* ====================================================================== *)

Definition MaxUint8 : Z := 255.
Definition MaxUint32 : Z := 2 ^ 32 - 1.
Definition MaxUint64 : Z := 2 ^ 64 - 1.
(** [math.MaxBig256] = 2^256 - 1. *)
Definition MaxBig256 : Z := 2 ^ 256 - 1.

Definition wrap32 (x : Z) : Z := x mod 2 ^ 32.
Definition wrap64 (x : Z) : Z := x mod 2 ^ 64.

Definition is_u32 (x : Z) : Prop := 0 <= x <= MaxUint32.
Definition is_u64 (x : Z) : Prop := 0 <= x <= MaxUint64.

(** [func SafeAdd(x, y uint64) (uint64, bool) { return x + y, y > MaxUint64-x }] *)
Definition SafeAdd (x y : Z) : Z * bool :=
  (wrap64 (x + y), MaxUint64 - x <? y).

(** [func SafeMul(x, y uint64) (uint64, bool)]:
    [if x == 0 || y == 0 { return 0, false }; return x * y, y > MaxUint64/x] *)
Definition SafeMul (x y : Z) : Z * bool :=
  if (x =? 0) || (y =? 0) then (0, false)
  else (wrap64 (x * y), MaxUint64 / x <? y).

(* ====================================================================== *)
(** * Run-time outcomes and [big.Int] division *)
(* ====================================================================== *)

Inductive panic : Set :=
| DivisionByZero
| NilDereference.

Inductive outcome (A : Type) : Type :=
| Done (a : A)
| Panic (p : panic).
Arguments Done {A} a.
Arguments Panic {A} p.

Definition outcome_map {A B} (f : A -> B) (o : outcome A) : outcome B :=
  match o with
  | Done a => Done (f a)
  | Panic p => Panic p
  end.

(** [math/big]: [z.Div(x, y)] is [QuoRem] (truncated) followed by the
    Euclidean adjustment of the quotient when the remainder is negative. *)
Definition euclid_div (x y : Z) : Z :=
  let q := Z.quot x y in
  let r := Z.rem x y in
  if r <? 0 then (if y <? 0 then q + 1 else q - 1) else q.

(** [z.Div(x, y)] with its "division by zero" run-time panic. *)
Definition bigDiv (x y : Z) : outcome Z :=
  if y =? 0 then Panic DivisionByZero else Done (euclid_div x y).

Inductive error : Set :=
| ErrOutOfGas           (* evm.ErrOutOfGas *)
| ErrSigRecovery        (* any error of crypto.SigToPub *)
| ErrDecode.            (* any error of the rlp decoder *)

(* ====================================================================== *)
(** * Bytes *)
(* ====================================================================== *)

Definition u8 (b : byte) : Z := Z.of_N (Byte.to_N b).

(** Conversion [byte(x)]: keeps the low 8 bits. *)
Definition byte_of_Z (x : Z) : byte :=
  match Byte.of_N (Z.to_N (x mod 256)) with
  | Some b => b
  | None => x00
  end.

Definition Bytes32 := list byte.
Definition Address := list byte.

(** [new(big.Int).SetBytes(bs)] and [binary.BigEndian.UintN(bs)]:
    the bytes read as a big-endian unsigned integer. *)
Definition be_to_Z (bs : list byte) : Z :=
  fold_left (fun acc b => acc * 256 + u8 b) bs 0.

(** Big-endian digits of [n], most significant first, without leading
    zeros ([big.Int.Bytes], and the integer rule of the RLP encoder);
    [fuel] bounds the number of digits. *)
Fixpoint be_digits (fuel : nat) (n : Z) (acc : list byte) : list byte :=
  match fuel with
  | O => acc
  | S fuel' =>
      if n <=? 0 then acc
      else be_digits fuel' (n / 256) (byte_of_Z n :: acc)
  end.

Definition Z_to_be (n : Z) : list byte :=
  be_digits (S (Z.to_nat (Z.log2 n))) n [].

(** [binary.BigEndian.PutUint64(b, v)]. *)
Definition PutUint64 (v : Z) : list byte :=
  [ byte_of_Z (Z.shiftr v 56); byte_of_Z (Z.shiftr v 48);
    byte_of_Z (Z.shiftr v 40); byte_of_Z (Z.shiftr v 32);
    byte_of_Z (Z.shiftr v 24); byte_of_Z (Z.shiftr v 16);
    byte_of_Z (Z.shiftr v 8);  byte_of_Z v ].

(** [bytes.HasPrefix(s, prefix)]. *)
Fixpoint HasPrefix (s prefix : list byte) {struct prefix} : bool :=
  match prefix, s with
  | [], _ => true
  | _ :: _, [] => false
  | p :: prefix', c :: s' => Byte.eqb c p && HasPrefix s' prefix'
  end.

(** [thor.BytesToBytes32(math.MaxBig256.Bytes())]: 32 bytes [0xff]. *)
Definition invalidTxID : Bytes32 := repeat xff 32.

(** [thor.Address{}]: the zero address returned together with an error. *)
Definition zeroAddress : Address := repeat x00 20.

(* ====================================================================== *)
(** * RLP (go-ethereum [rlp]) *)
(* ====================================================================== *)

(** The codec is go-ethereum's [rlp] package, a dependency outside this
    repository.  It is embedded by its encoding rules: an item is a byte
    string or a list of items; a single byte below [0x80] is its own
    encoding; a payload shorter than 56 bytes is prefixed by
    [offset + length]; a longer one by [offset + 55 + n] and the [n]
    big-endian bytes of its length.  The decoder accepts canonical
    encodings only. *)
Module RLP.

Inductive item : Type :=
| Str (bs : list byte)
| Lst (xs : list item).

Definition header (offset : Z) (len : nat) : list byte :=
  if Z.of_nat len <? 56 then [byte_of_Z (offset + Z.of_nat len)]
  else
    let bl := Z_to_be (Z.of_nat len) in
    byte_of_Z (offset + 55 + Z.of_nat (length bl)) :: bl.

Definition encode_str (bs : list byte) : list byte :=
  match bs with
  | [b] => if u8 b <? 128 then [b] else header 128 1 ++ bs
  | _ => header 128 (length bs) ++ bs
  end.

Fixpoint encode (x : item) : list byte :=
  match x with
  | Str bs => encode_str bs
  | Lst xs =>
      let payload := flat_map encode xs in
      header 192 (length payload) ++ payload
  end.

(** Splits [n] bytes off the input; fails on a short input. *)
Definition split_at (n : nat) (bs : list byte) : option (list byte * list byte) :=
  if (n <=? length bs)%nat then Some (take n bs, drop n bs) else None.

(** A multi-byte length: no leading zero, and at least 56. *)
Definition long_length (lb : list byte) : option nat :=
  match lb with
  | [] => None
  | b :: _ =>
      if (u8 b =? 0) || (be_to_Z lb <? 56) then None
      else Some (Z.to_nat (be_to_Z lb))
  end.

(** Decodes the items of a list payload with the item decoder [dec];
    [n] bounds the number of items. *)
Fixpoint decode_seq (dec : list byte -> option (item * list byte))
         (n : nat) (bs : list byte) : option (list item) :=
  match bs with
  | [] => Some []
  | _ :: _ =>
      match n with
      | O => None
      | S n' =>
          match dec bs with
          | Some (x, rest) =>
              match decode_seq dec n' rest with
              | Some xs => Some (x :: xs)
              | None => None
              end
          | None => None
          end
      end
  end.

(** Decodes one item from the front of the input and returns the rest;
    [fuel] bounds the nesting depth. *)
Fixpoint decode (fuel : nat) (bs : list byte) : option (item * list byte) :=
  match fuel with
  | O => None
  | S fuel' =>
      match bs with
      | [] => None
      | b :: rest =>
          let n := u8 b in
          if n <? 128 then Some (Str [b], rest)
          else if n <? 184 then
            match split_at (Z.to_nat (n - 128)) rest with
            | Some ([c], rest') =>
                if u8 c <? 128 then None else Some (Str [c], rest')
            | Some (s, rest') => Some (Str s, rest')
            | None => None
            end
          else if n <? 192 then
            match split_at (Z.to_nat (n - 183)) rest with
            | Some (lb, rest1) =>
                match long_length lb with
                | Some len =>
                    match split_at len rest1 with
                    | Some (s, rest') => Some (Str s, rest')
                    | None => None
                    end
                | None => None
                end
            | None => None
            end
          else if n <? 248 then
            match split_at (Z.to_nat (n - 192)) rest with
            | Some (payload, rest') =>
                match decode_seq (decode fuel') (length payload) payload with
                | Some xs => Some (Lst xs, rest')
                | None => None
                end
            | None => None
            end
          else
            match split_at (Z.to_nat (n - 247)) rest with
            | Some (lb, rest1) =>
                match long_length lb with
                | Some len =>
                    match split_at len rest1 with
                    | Some (payload, rest') =>
                        match decode_seq (decode fuel') (length payload) payload with
                        | Some xs => Some (Lst xs, rest')
                        | None => None
                        end
                    | None => None
                    end
                | None => None
                end
            | None => None
            end
      end
  end.

(** [rlp.DecodeBytes]: exactly one item, no trailing bytes. *)
Definition decode_bytes (bs : list byte) : option item :=
  match decode (S (length bs)) bs with
  | Some (x, []) => Some x
  | _ => None
  end.

(** Nesting depth of an item. *)
Fixpoint depth (x : item) : nat :=
  match x with
  | Str _ => 0
  | Lst xs => S (fold_right (fun y d => Nat.max (depth y) d) 0%nat xs)
  end.

End RLP.

(* ====================================================================== *)
(** * Clause, body and their encodings *)
(* ====================================================================== *)

(** Modelled from the spec: the clause type of [tx/clause.go], which is
    not among the sources.  Spec, data model: a clause is
    [{ to: optional Address, value: unsigned 256-bit integer, data: byte
    sequence }], and [to = none] denotes contract creation.  The fields
    are the [c.body.To] and [c.body.Data] read by [IntrinsicGas]. *)
Record Clause : Type := mkClause {
  To : option Address;
  Value : Z;
  Data : list byte
}.

(** [type body struct] of the transaction.  [Reserved []interface{}]
    holds what the codec can carry: RLP items. *)
Record body : Type := mkBody {
  ChainTag : byte;
  Nonce : Z;
  BlockRef : Z;
  Clauses : list Clause;
  GasPriceCoef : byte;
  Gas : Z;
  DependsOn : option Bytes32;
  Reserved : list RLP.item;
  Signature : list byte
}.

(** The only field changed by [WithSignature]. *)
Definition set_Signature (b : body) (sig : list byte) : body :=
  mkBody (ChainTag b) (Nonce b) (BlockRef b) (Clauses b) (GasPriceCoef b)
         (Gas b) (DependsOn b) (Reserved b) sig.

Module Codec.
Import RLP.

(** Unsigned integers: big-endian without leading zeros. *)
Definition enc_uint (n : Z) : item := Str (Z_to_be n).

(** A pointer to a byte array tagged [rlp:"nil"]: nil is the empty
    string. *)
Definition enc_opt (o : option (list byte)) : item :=
  match o with
  | Some bs => Str bs
  | None => Str []
  end.

(** Modelled from the spec: the clause encoding of [tx/clause.go]
    ("each clause serialized as to/value/data"). *)
Definition enc_clause (c : Clause) : item :=
  Lst [enc_opt (To c); enc_uint (Value c); Str (Data c)].

(** The eight fields hashed by [SigningHash], in its order. *)
Definition signing_fields (b : body) : list item :=
  [ enc_uint (u8 (ChainTag b)); enc_uint (Nonce b); enc_uint (BlockRef b);
    Lst (map enc_clause (Clauses b)); enc_uint (u8 (GasPriceCoef b));
    enc_uint (Gas b); enc_opt (DependsOn b); Lst (Reserved b) ].

Definition signing_item (b : body) : item := Lst (signing_fields b).

(** [rlp.Encode(w, &t.body)]: the struct as the list of its fields. *)
Definition body_item (b : body) : item :=
  Lst (signing_fields b ++ [Str (Signature b)]).

Definition encode_body (b : body) : list byte := encode (body_item b).

Definition no_leading_zero (bs : list byte) : bool :=
  match bs with
  | [] => true
  | b :: _ => negb (u8 b =? 0)
  end.

(** An unsigned integer of at most [maxlen] bytes, canonical. *)
Definition dec_uint (maxlen : nat) (x : item) : option Z :=
  match x with
  | Str bs =>
      if (length bs <=? maxlen)%nat && no_leading_zero bs
      then Some (be_to_Z bs) else None
  | Lst _ => None
  end.

Definition dec_u8 (x : item) : option byte :=
  match dec_uint 1 x with
  | Some n => Some (byte_of_Z n)
  | None => None
  end.

(** [*big.Int]: canonical, of any length. *)
Definition dec_big (x : item) : option Z :=
  match x with
  | Str bs => if no_leading_zero bs then Some (be_to_Z bs) else None
  | Lst _ => None
  end.

Definition dec_bytes (x : item) : option (list byte) :=
  match x with
  | Str bs => Some bs
  | Lst _ => None
  end.

(** [rlp:"nil"] pointer to an [n]-byte array: an empty value is nil,
    anything else must be a string of exactly [n] bytes. *)
Definition dec_opt (n : nat) (x : item) : option (option (list byte)) :=
  match x with
  | Str [] => Some None
  | Lst [] => Some None
  | Str bs => if (length bs =? n)%nat then Some (Some bs) else None
  | Lst _ => None
  end.

Definition dec_clause (x : item) : option Clause :=
  match x with
  | Lst [a; v; d] =>
      match dec_opt 20 a, dec_big v, dec_bytes d with
      | Some to, Some value, Some data => Some (mkClause to value data)
      | _, _, _ => None
      end
  | _ => None
  end.

Fixpoint dec_all {A} (f : item -> option A) (xs : list item) : option (list A) :=
  match xs with
  | [] => Some []
  | x :: xs' =>
      match f x, dec_all f xs' with
      | Some a, Some l => Some (a :: l)
      | _, _ => None
      end
  end.

Definition dec_list {A} (f : item -> option A) (x : item) : option (list A) :=
  match x with
  | Lst xs => dec_all f xs
  | Str _ => None
  end.

(** The struct decoder: exactly nine elements, each by its field type. *)
Definition dec_body (x : item) : option body :=
  match x with
  | Lst [ct; no; br; cl; gp; ga; dp; rs; sg] =>
      match dec_u8 ct, dec_uint 8 no, dec_uint 8 br, dec_list dec_clause cl,
            dec_u8 gp, dec_uint 8 ga, dec_opt 32 dp, dec_list Some rs,
            dec_bytes sg with
      | Some ct', Some no', Some br', Some cl', Some gp', Some ga',
        Some dp', Some rs', Some sg' =>
          Some (mkBody ct' no' br' cl' gp' ga' dp' rs' sg')
      | _, _, _, _, _, _, _, _, _ => None
      end
  | _ => None
  end.

(** [s.Decode(&body)] on a stream holding [bs]. *)
Definition decode_body (bs : list byte) : option body :=
  match decode_bytes bs with
  | Some x => dec_body x
  | None => None
  end.

End Codec.

(** ** Valid bodies *)

(** What the Go types of the fields guarantee: [uint64] fields in range,
    a non-negative [*big.Int] value, a 20-byte address behind a non-nil
    [To], a 32-byte hash behind a non-nil [DependsOn], and an encoding
    whose length is a [uint64]. *)
Definition valid_clause (c : Clause) : Prop :=
  (forall a, To c = Some a -> length a = 20%nat) /\ 0 <= Value c.

Definition valid_body (b : body) : Prop :=
  is_u64 (Nonce b) /\ is_u64 (BlockRef b) /\ is_u64 (Gas b) /\
  Forall valid_clause (Clauses b) /\
  (forall d, DependsOn b = Some d -> length d = 32%nat) /\
  Z.of_nat (length (Codec.encode_body b)) < 2 ^ 64.

(* ====================================================================== *)
(** * The signer cache ([hashicorp/golang-lru]) *)
(* ====================================================================== *)

Fixpoint bytes_eqb (a b : list byte) : bool :=
  match a, b with
  | [], [] => true
  | x :: a', y :: b' => Byte.eqb x y && bytes_eqb a' b'
  | _, _ => false
  end.

(** The cache as the list of its entries, most recently used first. *)
Module LRU.

Definition t : Type := list (Bytes32 * Address).

(** [const signerCacheSize = 1024] *)
Definition signerCacheSize : nat := 1024.

Fixpoint find (k : Bytes32) (c : t) : option Address :=
  match c with
  | [] => None
  | (k', v) :: c' => if bytes_eqb k k' then Some v else find k c'
  end.

Fixpoint remove (k : Bytes32) (c : t) : t :=
  match c with
  | [] => []
  | (k', v) :: c' => if bytes_eqb k k' then remove k c' else (k', v) :: remove k c'
  end.

(** [Get]: a hit moves the entry to the front. *)
Definition get (k : Bytes32) (c : t) : option Address * t :=
  match find k c with
  | Some v => (Some v, (k, v) :: remove k c)
  | None => (None, c)
  end.

(** [Add]: the entry goes to the front; beyond the capacity the least
    recently used entry is evicted. *)
Definition add (k : Bytes32) (v : Address) (c : t) : t :=
  take signerCacheSize ((k, v) :: remove k c).

End LRU.

(* ====================================================================== *)
(** * Transaction *)
(* ====================================================================== *)

(** [cache struct { signingHash, signer, id, size atomic.Value }]:
    [None] is the unset [atomic.Value] ([Load() == nil]). *)
Record cacheT : Type := mkCache {
  c_signingHash : option Bytes32;
  c_signer : option Address;
  c_id : option Bytes32;
  c_size : option Z
}.

Definition empty_cache : cacheT := mkCache None None None None.

Record Transaction : Type := mkTx {
  tx_body : body;
  tx_cache : cacheT
}.

(** What a method call on [t *Transaction] can read and write: the
    receiver and the package-level [signerCache]. *)
Record world : Type := mkWorld {
  self : Transaction;
  signerCache : LRU.t
}.

Definition M (A : Type) : Type := world -> outcome (A * world).

Definition ret {A} (a : A) : M A := fun w => Done (a, w).

Definition bind {A B} (m : M A) (k : A -> M B) : M B :=
  fun w =>
    match m w with
    | Done (a, w') => k a w'
    | Panic p => Panic p
    end.

Notation "x <~ m ;; k" := (bind m (fun x => k))
  (at level 100, m at next level, right associativity).
Notation "m ;;; k" := (bind m (fun _ => k))
  (at level 100, right associativity).

(** The value a computation returns, without the final state. *)
Definition result_of {A} (o : outcome (A * world)) : outcome A :=
  outcome_map fst o.

Definition lift {A} (o : outcome A) : M A :=
  fun w => outcome_map (fun a => (a, w)) o.

Definition get_body : M body := fun w => Done (tx_body (self w), w).
Definition get_cache : M cacheT := fun w => Done (tx_cache (self w), w).

Definition set_cache (f : cacheT -> cacheT) : M unit :=
  fun w => Done (tt, mkWorld (mkTx (tx_body (self w)) (f (tx_cache (self w))))
                             (signerCache w)).

Definition store_signingHash (h : Bytes32) : M unit :=
  set_cache (fun c => mkCache (Some h) (c_signer c) (c_id c) (c_size c)).
Definition store_signer (a : Address) : M unit :=
  set_cache (fun c => mkCache (c_signingHash c) (Some a) (c_id c) (c_size c)).
Definition store_id (i : Bytes32) : M unit :=
  set_cache (fun c => mkCache (c_signingHash c) (c_signer c) (Some i) (c_size c)).

Definition signerCache_Get (k : Bytes32) : M (option Address) :=
  fun w => let '(r, c') := LRU.get k (signerCache w) in
           Done (r, mkWorld (self w) c').

Definition signerCache_Add (k : Bytes32) (v : Address) : M unit :=
  fun w => Done (tt, mkWorld (self w) (LRU.add k v (signerCache w))).

(** Modelled from the spec: [BlockRef.Number] of [tx/block_ref.go], which
    is not among the sources ("First 4 bytes = block number
    (big-endian)"). *)
Definition BlockRef_Number (br : list byte) : Z := be_to_Z (take 4 br).


(** ** Transactions behind pointers *)

(** [*Transaction] values are locations of a heap; [invoke t m] is the
    method call [t.m()]: it runs [m] on the object at [t] and writes the
    receiver back.  A nil or dangling receiver panics. *)
Definition loc : Type := positive.

Record heapWorld : Type := mkHeapWorld {
  heap : gmap loc Transaction;
  globalSignerCache : LRU.t
}.

Definition HM (A : Type) : Type := heapWorld -> outcome (A * heapWorld).

Definition invoke {A} (t : loc) (m : M A) : HM A :=
  fun s =>
    match heap s !! t with
    | None => Panic NilDereference
    | Some obj =>
        match m (mkWorld obj (globalSignerCache s)) with
        | Done (a, w') =>
            Done (a, mkHeapWorld (<[t := self w']> (heap s)) (signerCache w'))
        | Panic p => Panic p
        end
    end.

Definition heap_result {A} (o : outcome (A * heapWorld)) : outcome A :=
  outcome_map fst o.

(** [func (t *Transaction) WithSignature(sig []byte) *Transaction]:
    [newTx] copies [t.body], takes a fresh copy of [sig], has an unset
    cache and is a new object. *)
Definition WithSignature (t : loc) (sig : list byte) : HM loc :=
  fun s =>
    match heap s !! t with
    | None => Panic NilDereference
    | Some obj =>
        let newTx := mkTx (set_Signature (tx_body obj) sig) empty_cache in
        let l := fresh (dom (heap s)) in
        Done (l, mkHeapWorld (<[l := newTx]> (heap s)) (globalSignerCache s))
    end.

(** [func (t *Transaction) EncodeRLP(w io.Writer) error]: the bytes
    written to [w]. *)
Definition EncodeRLP (t : Transaction) : list byte :=
  Codec.encode_body (tx_body t).

(** [func (t *Transaction) DecodeRLP(s *rlp.Stream) error]: on success
    the receiver becomes [Transaction{body: body}], with an unset cache. *)
Definition DecodeRLP (input : list byte) : M (option error) :=
  fun w =>
    match Codec.decode_body input with
    | None => Done (Some ErrDecode, w)
    | Some b => Done (None, mkWorld (mkTx b empty_cache) (signerCache w))
    end.

(* ====================================================================== *)
(** * Sample values *)
(* ====================================================================== *)

(** Concrete transactions and stand-ins for the external primitives, on
    which the definitions can be run. *)
Module Sample.

(** A stand-in hash: 32 copies of a byte derived from the input length. *)
Definition hash (bs : list byte) : Bytes32 :=
  repeat (byte_of_Z (1 + Z.of_nat (length bs) mod 200)) 32.

(** A degenerate hash whose every digest is the all-zero id. *)
Definition hash_zero (bs : list byte) : Bytes32 := repeat x00 32.

(** A stand-in recovery: fails on an empty signature. *)
Definition recover (h : Bytes32) (sig : list byte) : option Address :=
  match sig with
  | [] => None
  | _ :: _ => Some (repeat x07 20)
  end.

(** Values for [thor.TxGas], [thor.ClauseGas],
    [thor.ClauseGasContractCreation], [params.TxDataZeroGas],
    [params.TxDataNonZeroGas] and [thor.MaxTxWorkDelay]. *)
Definition TxGas : Z := 5000.
Definition ClauseGas : Z := 16000.
Definition ClauseGasContractCreation : Z := 48000.
Definition TxDataZeroGas : Z := 4.
Definition TxDataNonZeroGas : Z := 68.
Definition MaxTxWorkDelay : Z := 30.

Definition workToGas (work : Z) (blockNum : Z) : Z :=
  (work / 1000) mod 2 ^ 64.

Definition create : Clause := mkClause None 0 [x60; x00; x60; x00; x00].
Definition call : Clause := mkClause (Some (repeat x11 20)) 7 [x01; x00].

(** Block reference: block 5, id suffix [00 00 00 2a]. *)
Definition blockRef : Z := 5 * 2 ^ 32 + 42.

Definition unsigned : body :=
  mkBody x27 1 blockRef [create; call] x80 21000 None
         [RLP.Str [x2a]; RLP.Lst [RLP.Str []]] [].

Definition signed : body := set_Signature unsigned [x01; x02; x03].

Definition no_clauses : body :=
  mkBody x27 2 blockRef [] x00 21000 (Some (repeat xab 32)) [] [].

Definition only_create : body :=
  mkBody x27 3 blockRef [create] xff 21000 None [] [].

Definition zero_gas : body :=
  mkBody x27 4 blockRef [] x00 0 None [] [x01].

Definition fresh (b : body) : world := mkWorld (mkTx b empty_cache) [].

(** A chain on which block 5 has the id announced by [blockRef]. *)
Definition getBlockID (n : Z) : Bytes32 := PutUint64 (n * 2 ^ 32 + 42) ++ repeat x00 24.

(** A heap holding the signed and the unsigned sample. *)
Definition heap0 : heapWorld :=
  mkHeapWorld (<[2%positive := mkTx unsigned empty_cache]>
                 (<[1%positive := mkTx signed empty_cache]> ∅)) [].

End Sample.

Section Tx.

(** Cryptographic primitives of go-ethereum: Keccak-256, and public-key
    recovery followed by address derivation ([crypto.SigToPub] and
    [crypto.PubkeyToAddress]); [None] is a recovery error. *)
Variable keccak256 : list byte -> Bytes32.
Variable recoverAddress : Bytes32 -> list byte -> option Address.

(** Constants of package [thor] and of go-ethereum's [params], declared
    outside [transaction.go] and taken as parameters. *)
Variables TxGas ClauseGas ClauseGasContractCreation : Z.
Variables TxDataZeroGas TxDataNonZeroGas : Z.
Variable MaxTxWorkDelay : Z.

(** [workToGas(work, blockNum) uint64] of package [tx], defined outside
    [transaction.go] and taken as a parameter. *)
Variable workToGas : Z -> Z -> Z.

(** ** Identity and signing *)

(** [func (t *Transaction) SigningHash() (hash thor.Bytes32)] *)
Definition SigningHash : M Bytes32 :=
  c <~ get_cache ;;
  match c_signingHash c with
  | Some cached => ret cached
  | None =>
      b <~ get_body ;;
      let hash := keccak256 (RLP.encode (Codec.signing_item b)) in
      store_signingHash hash ;;;
      ret hash
  end.

(** [func (t *Transaction) Signer() (signer thor.Address, err error)] *)
Definition Signer : M (Address * option error) :=
  c <~ get_cache ;;
  match c_signer c with
  | Some cached => ret (cached, None)
  | None =>
      b <~ get_body ;;
      let hash := keccak256 (Codec.encode_body b) in
      hit <~ signerCache_Get hash ;;
      match hit with
      | Some v =>
          store_signer v ;;;
          ret (v, None)
      | None =>
          sh <~ SigningHash ;;
          match recoverAddress sh (Signature b) with
          | None => ret (zeroAddress, Some ErrSigRecovery)
          | Some signer =>
              signerCache_Add hash signer ;;;
              store_signer signer ;;;
              ret (signer, None)
          end
      end
  end.

(** [func (t *Transaction) makeID(signer thor.Address) (id thor.Bytes32)] *)
Definition makeID (signer : Address) : M Bytes32 :=
  sh <~ SigningHash ;;
  ret (keccak256 (sh ++ signer)).

(** [func (t *Transaction) ID() (id thor.Bytes32)]; the deferred
    [t.cache.id.Store(id)] runs at both returns. *)
Definition ID : M Bytes32 :=
  c <~ get_cache ;;
  match c_id c with
  | Some cached => ret cached
  | None =>
      r <~ Signer ;;
      match snd r with
      | Some _ =>
          store_id invalidTxID ;;;
          ret invalidTxID
      | None =>
          id <~ makeID (fst r) ;;
          store_id id ;;;
          ret id
      end
  end.

(** [func idToWork(id thor.Bytes32) *big.Int] *)
Definition idToWork (id : Bytes32) : outcome Z :=
  let result := be_to_Z id in
  bigDiv MaxBig256 result.

(** [func (t *Transaction) ProvedWork() *big.Int] *)
Definition ProvedWork : M Z :=
  r <~ Signer ;;
  match snd r with
  | Some _ => ret 0
  | None =>
      id <~ ID ;;
      lift (idToWork id)
  end.

(** [func (t *Transaction) EvaluateWork(signer thor.Address) *big.Int] *)
Definition EvaluateWork (signer : Address) : M Z :=
  id <~ makeID signer ;;
  lift (idToWork id).

(** ** Gas *)

(** The counting loop of [dataGas]: [z++] and [nz++] on [uint64]. *)
Fixpoint countBytes (data : list byte) (z nz : Z) : Z * Z :=
  match data with
  | [] => (z, nz)
  | byt :: data' =>
      if u8 byt =? 0 then countBytes data' (wrap64 (z + 1)) nz
      else countBytes data' z (wrap64 (nz + 1))
  end.

(** [func dataGas(data []byte) (uint64, error)] *)
Definition dataGas (data : list byte) : Z * option error :=
  match data with
  | [] => (0, None)
  | _ :: _ =>
      let '(z, nz) := countBytes data 0 0 in
      let '(zgas, overflow) := SafeMul TxDataZeroGas z in
      if overflow then (0, Some ErrOutOfGas) else
      let '(nzgas, overflow) := SafeMul TxDataNonZeroGas nz in
      if overflow then (0, Some ErrOutOfGas) else
      let '(gas, overflow) := SafeAdd zgas nzgas in
      if overflow then (0, Some ErrOutOfGas) else
      (gas, None)
  end.

(** The [for _, c := range t.body.Clauses] loop of [IntrinsicGas]. *)
Fixpoint intrinsicLoop (total : Z) (cs : list Clause) : Z * option error :=
  match cs with
  | [] => (total, None)
  | c :: cs' =>
      match dataGas (Data c) with
      | (_, Some err) => (0, Some err)
      | (gas, None) =>
          let '(total1, overflow) := SafeAdd total gas in
          if overflow then (0, Some ErrOutOfGas) else
          let cgas := match To c with
                      | None => ClauseGasContractCreation
                      | Some _ => ClauseGas
                      end in
          let '(total2, overflow) := SafeAdd total1 cgas in
          if overflow then (0, Some ErrOutOfGas) else
          intrinsicLoop total2 cs'
      end
  end.

(** [func (t *Transaction) IntrinsicGas() (uint64, error)] *)
Definition IntrinsicGas (t : Transaction) : Z * option error :=
  match Clauses (tx_body t) with
  | [] => (wrap64 (TxGas + ClauseGas), None)
  | _ :: _ => intrinsicLoop TxGas (Clauses (tx_body t))
  end.

(** [func (t *Transaction) GasPrice(baseGasPrice *big.Int) *big.Int];
    the divisor is the non-zero literal [math.MaxUint8]. *)
Definition GasPrice (t : Transaction) (baseGasPrice : Z) : Z :=
  let x := u8 (GasPriceCoef (tx_body t)) in
  let x := x * baseGasPrice in
  let x := euclid_div x MaxUint8 in
  x + baseGasPrice.

(** [func (t *Transaction) BlockRef() (br BlockRef)] *)
Definition Transaction_BlockRef (t : Transaction) : list byte :=
  PutUint64 (BlockRef (tx_body t)).

(** [func (t *Transaction) measureDelay(headBlockNum uint32,
    getBlockID func(uint32) thor.Bytes32) uint32] *)
Definition measureDelay (t : Transaction) (headBlockNum : Z)
           (getBlockID : Z -> Bytes32) : Z :=
  let ref := Transaction_BlockRef t in
  let refNum := BlockRef_Number ref in
  if headBlockNum <=? refNum then MaxUint32
  else if MaxTxWorkDelay <? wrap32 (headBlockNum - refNum) then MaxUint32
  else
    let id := getBlockID refNum in
    if HasPrefix id ref then wrap32 (headBlockNum - refNum)
    else MaxUint32.

(** [func (t *Transaction) OverallGasPrice(baseGasPrice *big.Int,
    headBlockNum uint32, getBlockID func(uint32) thor.Bytes32) *big.Int] *)
Definition OverallGasPrice (baseGasPrice : Z) (headBlockNum : Z)
           (getBlockID : Z -> Bytes32) : M Z :=
  fun w =>
    let t := self w in
    let gasPrice := GasPrice t baseGasPrice in
    if MaxTxWorkDelay <? measureDelay t headBlockNum getBlockID
    then ret gasPrice w
    else
      (work <~ ProvedWork ;;
       let wgas := workToGas work headBlockNum in
       let wgas := if Gas (tx_body t) <? wgas then Gas (tx_body t) else wgas in
       let x := wgas in
       let x := x * baseGasPrice in
       x <~ lift (bigDiv x (Gas (tx_body t))) ;;
       ret (x + gasPrice)) w.

(** ** Reference quantities of the gas claims *)

(** The number of zero bytes and of non-zero bytes of a byte string. *)
Fixpoint zeroCount (data : list byte) : Z :=
  match data with
  | [] => 0
  | b :: data' => (if u8 b =? 0 then 1 else 0) + zeroCount data'
  end.

Fixpoint nonZeroCount (data : list byte) : Z :=
  match data with
  | [] => 0
  | b :: data' => (if u8 b =? 0 then 0 else 1) + nonZeroCount data'
  end.

(** Gas of a clause over the unbounded integers. *)
Definition exactClauseGas (c : Clause) : Z :=
  zeroCount (Data c) * TxDataZeroGas + nonZeroCount (Data c) * TxDataNonZeroGas
  + match To c with
    | None => ClauseGasContractCreation
    | Some _ => ClauseGas
    end.

Definition exactIntrinsicGas (cs : list Clause) : Z :=
  TxGas + fold_right (fun c acc => exactClauseGas c + acc) 0 cs.

(** The gas constants are [uint64] values, and the constant sum of the
    no-clause case fits. *)
Definition gas_constants_ok : Prop :=
  is_u64 TxGas /\ is_u64 ClauseGas /\ is_u64 ClauseGasContractCreation /\
  is_u64 TxDataZeroGas /\ is_u64 TxDataNonZeroGas /\
  TxGas + ClauseGas <= MaxUint64.

(** A slice length is a [uint64] (Go slices are shorter than [2^63]). *)
Definition data_len_ok (c : Clause) : Prop :=
  Z.of_nat (length (Data c)) <= MaxUint64.

(** ** Reference values of the memoised fields *)

(** What [SigningHash], the cache key of [Signer], signature recovery
    and [ID] compute from the body alone. *)
Definition signingHashOf (b : body) : Bytes32 :=
  keccak256 (RLP.encode (Codec.signing_item b)).

Definition fingerprintOf (b : body) : Bytes32 :=
  keccak256 (Codec.encode_body b).

Definition recoverOf (b : body) : option Address :=
  recoverAddress (signingHashOf b) (Signature b).

Definition idOf (b : body) : Bytes32 :=
  match recoverOf b with
  | Some signer => keccak256 (signingHashOf b ++ signer)
  | None => invalidTxID
  end.

(** The value and error [Signer] returns, from the body. *)
Definition signerResult (b : body) : Address * option error :=
  match recoverOf b with
  | Some a => (a, None)
  | None => (zeroAddress, Some ErrSigRecovery)
  end.

(** The caches hold only what the methods store in them: a set field
    of the receiver's cache is the value computed from the body, and an
    entry of the signer cache under the receiver's fingerprint is the
    recovered signer.  A transaction with an unset cache and no entry
    in the signer cache satisfies it, and the methods preserve it. *)
Definition world_ok (w : world) : Prop :=
  let b := tx_body (self w) in
  let c := tx_cache (self w) in
  (forall h, c_signingHash c = Some h -> h = signingHashOf b) /\
  (forall a, c_signer c = Some a -> recoverOf b = Some a) /\
  (forall a, LRU.find (fingerprintOf b) (signerCache w) = Some a ->
             recoverOf b = Some a) /\
  (forall i, c_id c = Some i -> i = idOf b).

(** The reading of the id cache under which the sentinel is never
    stored: after [ID] on a transaction whose [Signer] fails, the id
    cache does not hold the sentinel. *)
Definition sentinel_never_stored (w : world) : Prop :=
  forall a e w1 i w2,
    Signer w = Done ((a, Some e), w1) ->
    ID w = Done (i, w2) ->
    i = invalidTxID /\ c_id (tx_cache (self w2)) <> Some invalidTxID.

(* ==================================================================== *)
(** * Properties *)
(* ==================================================================== *)

(** ** Machine arithmetic *)

Lemma SafeAdd_spec x y :
  is_u64 x -> is_u64 y ->
  SafeAdd x y =
    if x + y <=? MaxUint64 then (x + y, false) else (wrap64 (x + y), true).
Proof.
  unfold is_u64, SafeAdd, wrap64, MaxUint64. intros Hx Hy.
  destruct (Z.leb_spec (x + y) (2 ^ 64 - 1)) as [Hle | Hgt].
  - f_equal.
    + apply Z.mod_small. lia.
    + apply Z.ltb_ge. lia.
  - f_equal. apply Z.ltb_lt. lia.
Qed.

Lemma SafeMul_spec x y :
  is_u64 x -> is_u64 y ->
  SafeMul x y =
    if x * y <=? MaxUint64 then (x * y, false) else (wrap64 (x * y), true).
Proof.
  unfold is_u64, SafeMul, wrap64. intros Hx Hy.
  destruct (Z.eqb_spec x 0) as [-> | Hx0]; simpl.
  { reflexivity. }
  destruct (Z.eqb_spec y 0) as [-> | Hy0]; simpl.
  { rewrite Z.mul_0_r. reflexivity. }
  assert (Hdiv : x * (MaxUint64 / x) <= MaxUint64)
    by (apply Z.mul_div_le; lia).
  destruct (Z.leb_spec (x * y) MaxUint64) as [Hle | Hgt].
  - f_equal.
    + apply Z.mod_small. unfold MaxUint64 in *. nia.
    + apply Z.ltb_ge. apply Z.div_le_lower_bound; lia.
  - f_equal. apply Z.ltb_lt.
    destruct (Z.lt_ge_cases (MaxUint64 / x) y) as [Hlt | Hge]; [exact Hlt |].
    exfalso. nia.
Qed.

Lemma euclid_div_pos x y : 0 < y -> euclid_div x y = x / y.
Proof.
  intros Hy. unfold euclid_div.
  pose proof (Z.quot_rem' x y) as Hqr.
  destruct (Z.ltb_spec (Z.rem x y) 0) as [Hneg | Hpos].
  - assert (Hy' : (y <? 0) = false) by (apply Z.ltb_ge; lia).
    rewrite Hy'.
    assert (Hx : x < 0).
    { destruct (Z.lt_ge_cases x 0) as [H | H]; [exact H |].
      pose proof (Z.rem_nonneg x y ltac:(lia) H). lia. }
    pose proof (Z.rem_bound_pos_neg x y Hy ltac:(lia)) as Hb.
    apply Z.div_unique with (r := Z.rem x y + y); [left; lia | lia].
  - assert (Hb : Z.rem x y < y).
    { destruct (Z.lt_ge_cases x 0) as [H | H].
      - pose proof (Z.rem_bound_pos_neg x y Hy ltac:(lia)). lia.
      - pose proof (Z.rem_bound_pos x y H Hy). lia. }
    apply Z.div_unique with (r := Z.rem x y); [left; lia | lia].
Qed.

Lemma euclid_div_nonneg x y : 0 <= x -> 0 < y -> euclid_div x y = Z.quot x y.
Proof.
  intros Hx Hy. rewrite euclid_div_pos by exact Hy.
  symmetry. apply Z.quot_div_nonneg; lia.
Qed.

(** ** Intrinsic gas *)

Lemma zeroCount_nonneg data : 0 <= zeroCount data.
Proof. induction data as [| b data IH]; simpl; [lia | destruct (u8 b =? 0); lia]. Qed.

Lemma nonZeroCount_nonneg data : 0 <= nonZeroCount data.
Proof. induction data as [| b data IH]; simpl; [lia | destruct (u8 b =? 0); lia]. Qed.

Lemma count_total data :
  zeroCount data + nonZeroCount data = Z.of_nat (length data).
Proof.
  induction data as [| b data IH]; [reflexivity |].
  simpl zeroCount. simpl nonZeroCount. rewrite length_cons, Nat2Z.inj_succ.
  destruct (u8 b =? 0); lia.
Qed.

(** Within the [uint64] range the counters of [dataGas] do not wrap. *)
Lemma countBytes_spec data : forall z nz,
  0 <= z -> 0 <= nz ->
  z + nz + Z.of_nat (length data) <= MaxUint64 ->
  countBytes data z nz = (z + zeroCount data, nz + nonZeroCount data).
Proof.
  induction data as [| b data IH]; intros z nz Hz Hnz Hlen.
  - simpl. f_equal; lia.
  - rewrite length_cons, Nat2Z.inj_succ in Hlen.
    simpl. unfold wrap64. unfold MaxUint64 in *.
    destruct (u8 b =? 0).
    + rewrite Z.mod_small by lia. rewrite IH by lia. f_equal; lia.
    + rewrite Z.mod_small by lia. rewrite IH by lia. f_equal; lia.
Qed.

Lemma dataGas_spec data :
  gas_constants_ok ->
  Z.of_nat (length data) <= MaxUint64 ->
  dataGas data =
    let g := zeroCount data * TxDataZeroGas
             + nonZeroCount data * TxDataNonZeroGas in
    if g <=? MaxUint64 then (g, None) else (0, Some ErrOutOfGas).
Proof.
  intros (_ & _ & _ & HZ & HNZ & _) Hlen.
  destruct data as [| b data]; [reflexivity |].
  unfold dataGas.
  set (d := b :: data) in *.
  pose proof (zeroCount_nonneg d) as Hz.
  pose proof (nonZeroCount_nonneg d) as Hnz.
  pose proof (count_total d) as Htot.
  rewrite countBytes_spec by lia.
  rewrite !Z.add_0_l.
  assert (Hzu : is_u64 (zeroCount d)) by (unfold is_u64; lia).
  assert (Hnzu : is_u64 (nonZeroCount d)) by (unfold is_u64; lia).
  rewrite (SafeMul_spec _ _ HZ Hzu).
  cbv zeta.
  unfold is_u64 in *.
  destruct (Z.leb_spec (TxDataZeroGas * zeroCount d) MaxUint64) as [H1 | H1].
  - rewrite (SafeMul_spec _ _ HNZ Hnzu).
    destruct (Z.leb_spec (TxDataNonZeroGas * nonZeroCount d) MaxUint64) as [H2 | H2].
    + rewrite SafeAdd_spec by (unfold is_u64; nia).
      rewrite (Z.mul_comm (zeroCount d)), (Z.mul_comm (nonZeroCount d)).
      destruct (_ <=? MaxUint64); reflexivity.
    + assert (Hgt : (zeroCount d * TxDataZeroGas
                     + nonZeroCount d * TxDataNonZeroGas <=? MaxUint64) = false)
        by (apply Z.leb_gt; nia).
      rewrite Hgt. reflexivity.
  - assert (Hgt : (zeroCount d * TxDataZeroGas
                   + nonZeroCount d * TxDataNonZeroGas <=? MaxUint64) = false)
      by (apply Z.leb_gt; nia).
    rewrite Hgt. reflexivity.
Qed.

Lemma exactClauseGas_nonneg c :
  gas_constants_ok -> 0 <= exactClauseGas c.
Proof.
  intros (_ & HC & HCC & HZ & HNZ & _). unfold exactClauseGas, is_u64 in *.
  pose proof (zeroCount_nonneg (Data c)).
  pose proof (nonZeroCount_nonneg (Data c)).
  destruct (To c); nia.
Qed.

(** The loop returns the exact sum when it fits and [ErrOutOfGas]
    otherwise: every partial sum is bounded by the final one. *)
Lemma intrinsicLoop_spec cs : forall total,
  gas_constants_ok ->
  is_u64 total ->
  Forall data_len_ok cs ->
  intrinsicLoop total cs =
    let g := total + fold_right (fun c acc => exactClauseGas c + acc) 0 cs in
    if g <=? MaxUint64 then (g, None) else (0, Some ErrOutOfGas).
Proof.
  induction cs as [| c cs IH]; intros total Hok Htot Hlen.
  - simpl. rewrite Z.add_0_r.
    assert (H : (total <=? MaxUint64) = true) by (apply Z.leb_le; apply Htot).
    rewrite H. reflexivity.
  - inversion Hlen as [| ? ? Hc Hcs]; subst.
    assert (Hrest : 0 <= fold_right (fun c acc => exactClauseGas c + acc) 0 cs).
    { clear IH Hlen Hcs. induction cs as [| c' cs IH']; simpl; [lia |].
      pose proof (exactClauseGas_nonneg c' Hok). lia. }
    pose proof (exactClauseGas_nonneg c Hok) as Hcn.
    pose proof Hok as (_ & HC & HCC & HZ & HNZ & _).
    pose proof (zeroCount_nonneg (Data c)) as Hz.
    pose proof (nonZeroCount_nonneg (Data c)) as Hnz.
    cbn [intrinsicLoop fold_right]. cbv zeta.
    rewrite (dataGas_spec _ Hok Hc). cbv zeta.
    set (dg := zeroCount (Data c) * TxDataZeroGas
               + nonZeroCount (Data c) * TxDataNonZeroGas) in *.
    set (cg := match To c with
               | Some _ => ClauseGas
               | None => ClauseGasContractCreation
               end).
    assert (Hcg : is_u64 cg) by (unfold cg; destruct (To c); assumption).
    assert (Hdg : 0 <= dg) by (unfold dg, is_u64 in *; nia).
    assert (Hec : exactClauseGas c = dg + cg) by reflexivity.
    set (rest := fold_right (fun c acc => exactClauseGas c + acc) 0 cs) in *.
    unfold is_u64 in *.
    destruct (Z.leb_spec dg MaxUint64) as [H1 | H1].
    + rewrite SafeAdd_spec by (unfold is_u64; lia).
      destruct (Z.leb_spec (total + dg) MaxUint64) as [H2 | H2].
      * rewrite SafeAdd_spec by (unfold is_u64; lia).
        destruct (Z.leb_spec (total + dg + cg) MaxUint64) as [H3 | H3].
        -- rewrite IH by (try assumption; unfold is_u64; lia).
           cbv zeta. fold rest. rewrite Hec.
           replace (total + dg + cg + rest) with (total + (dg + cg + rest)) by lia.
           reflexivity.
        -- assert (Hgt : (total + (exactClauseGas c + rest) <=? MaxUint64) = false)
             by (apply Z.leb_gt; lia).
           rewrite Hgt. reflexivity.
      * assert (Hgt : (total + (exactClauseGas c + rest) <=? MaxUint64) = false)
          by (apply Z.leb_gt; lia).
        rewrite Hgt. reflexivity.
    + assert (Hgt : (total + (exactClauseGas c + rest) <=? MaxUint64) = false)
        by (apply Z.leb_gt; lia).
      rewrite Hgt. reflexivity.
Qed.

(** C2. [IntrinsicGas] of a transaction without clauses is exactly
    [TxGas + ClauseGas]; with one contract-creation clause ([To] nil)
    whose data has [n] zero and [m] non-zero bytes it is
    [TxGas + n * TxDataZeroGas + m * TxDataNonZeroGas +
    ClauseGasContractCreation]; and for any clauses the result is the
    sum over the unbounded integers when that fits a [uint64], and the
    [ErrOutOfGas] error, never a wrapped value, when some intermediate
    sum or product (hence the total) exceeds [MaxUint64]. *)
Theorem IntrinsicGas_exact_or_OutOfGas :
  gas_constants_ok ->
  (forall t, Clauses (tx_body t) = [] ->
     IntrinsicGas t = (TxGas + ClauseGas, None)) /\
  (forall t c, Clauses (tx_body t) = [c] -> To c = None -> data_len_ok c ->
     let n := zeroCount (Data c) in
     let m := nonZeroCount (Data c) in
     let g := TxGas + n * TxDataZeroGas + m * TxDataNonZeroGas
              + ClauseGasContractCreation in
     IntrinsicGas t =
       if g <=? MaxUint64 then (g, None) else (0, Some ErrOutOfGas)) /\
  (forall t, Clauses (tx_body t) <> [] ->
     Forall data_len_ok (Clauses (tx_body t)) ->
     let g := exactIntrinsicGas (Clauses (tx_body t)) in
     IntrinsicGas t =
       if g <=? MaxUint64 then (g, None) else (0, Some ErrOutOfGas)).
Proof.
  intros Hok.
  assert (Hgen : forall t, Clauses (tx_body t) <> [] ->
     Forall data_len_ok (Clauses (tx_body t)) ->
     IntrinsicGas t =
       if exactIntrinsicGas (Clauses (tx_body t)) <=? MaxUint64
       then (exactIntrinsicGas (Clauses (tx_body t)), None)
       else (0, Some ErrOutOfGas)).
  { intros t Hne Hlen. unfold IntrinsicGas.
    destruct (Clauses (tx_body t)) as [| c cs] eqn:Hcs; [congruence |].
    rewrite intrinsicLoop_spec; [reflexivity | exact Hok | apply Hok | exact Hlen]. }
  split; [| split].
  - intros t Hnil. unfold IntrinsicGas. rewrite Hnil.
    destruct Hok as (HT & HC & _ & _ & _ & Hsum).
    unfold wrap64, is_u64, MaxUint64 in *. rewrite Z.mod_small by lia.
    reflexivity.
  - intros t c Hone Hto Hlen n m g.
    rewrite Hgen; rewrite Hone; [| discriminate | constructor; [exact Hlen | constructor]].
    unfold exactIntrinsicGas, exactClauseGas. simpl fold_right. rewrite Hto.
    replace (TxGas + (zeroCount (Data c) * TxDataZeroGas
                      + nonZeroCount (Data c) * TxDataNonZeroGas
                      + ClauseGasContractCreation + 0)) with g
      by (unfold g, n, m; lia).
    reflexivity.
  - intros t Hne Hlen g. apply Hgen; assumption.
Qed.

(** ** Bytes and big-endian integers *)

Lemma u8_range b : 0 <= u8 b <= 255.
Proof.
  unfold u8. pose proof (Byte.to_N_bounded b). lia.
Qed.

Lemma u8_byte_of_Z x : u8 (byte_of_Z x) = x mod 256.
Proof.
  unfold byte_of_Z, u8.
  pose proof (Z.mod_pos_bound x 256 ltac:(lia)) as Hb.
  destruct (Byte.of_N (Z.to_N (x mod 256))) as [b |] eqn:Hof.
  - apply Byte.to_of_N in Hof. rewrite Hof. lia.
  - apply Byte.of_N_None_iff in Hof. lia.
Qed.

Lemma byte_of_Z_u8 b : byte_of_Z (u8 b) = b.
Proof.
  unfold byte_of_Z. pose proof (u8_range b) as Hb.
  rewrite Z.mod_small by lia. unfold u8. rewrite N2Z.id.
  rewrite Byte.of_to_N. reflexivity.
Qed.

Lemma u8_inj a b : u8 a = u8 b -> a = b.
Proof.
  intros H. rewrite <- (byte_of_Z_u8 a), <- (byte_of_Z_u8 b), H. reflexivity.
Qed.

Lemma be_fold_acc bs : forall acc,
  fold_left (fun a b => a * 256 + u8 b) bs acc =
  acc * 256 ^ Z.of_nat (length bs) + be_to_Z bs.
Proof.
  unfold be_to_Z.
  induction bs as [| b bs IH]; intros acc.
  - simpl. lia.
  - cbn [fold_left]. rewrite IH. rewrite (IH (0 * 256 + u8 b)).
    rewrite length_cons, Nat2Z.inj_succ, Z.pow_succ_r by lia. lia.
Qed.

Lemma be_to_Z_cons b bs :
  be_to_Z (b :: bs) = u8 b * 256 ^ Z.of_nat (length bs) + be_to_Z bs.
Proof.
  unfold be_to_Z at 1. cbn [fold_left]. rewrite be_fold_acc. lia.
Qed.

Lemma be_to_Z_snoc bs b : be_to_Z (bs ++ [b]) = be_to_Z bs * 256 + u8 b.
Proof.
  unfold be_to_Z. rewrite fold_left_app. reflexivity.
Qed.

Lemma be_to_Z_range bs : 0 <= be_to_Z bs < 256 ^ Z.of_nat (length bs).
Proof.
  induction bs as [| b bs IH].
  - cbn. lia.
  - rewrite be_to_Z_cons, length_cons, Nat2Z.inj_succ, Z.pow_succ_r by lia.
    pose proof (u8_range b). nia.
Qed.

(** The block number of a block reference is a [uint32]. *)
Lemma BlockRef_Number_u32 t : is_u32 (BlockRef_Number (Transaction_BlockRef t)).
Proof.
  unfold BlockRef_Number, Transaction_BlockRef, PutUint64, is_u32, MaxUint32.
  cbn [take firstn].
  match goal with |- context [be_to_Z ?l] => pose proof (be_to_Z_range l) as H end.
  cbn [length] in H. change (256 ^ Z.of_nat 4) with (2 ^ 32) in H. lia.
Qed.

(** On a [uint64] block reference the number is its upper half. *)
Lemma BlockRef_Number_high v :
  is_u64 v -> BlockRef_Number (PutUint64 v) = v / 2 ^ 32.
Proof.
  unfold is_u64, MaxUint64, BlockRef_Number, PutUint64. intros Hv.
  cbn [take firstn]. unfold be_to_Z. cbn [fold_left].
  rewrite !u8_byte_of_Z, !Z.shiftr_div_pow2 by lia.
  change (2 ^ 56) with (2 ^ 32 * 2 ^ 24).
  change (2 ^ 48) with (2 ^ 32 * 2 ^ 16).
  change (2 ^ 40) with (2 ^ 32 * 2 ^ 8).
  rewrite <- !Z.div_div by lia.
  set (h := v / 2 ^ 32).
  assert (Hh : 0 <= h < 2 ^ 32).
  { unfold h. split; [apply Z.div_pos; lia |].
    apply Z.div_lt_upper_bound; lia. }
  clearbody h. clear Hv v.
  change (2 ^ 24) with (256 * 256 * 256).
  change (2 ^ 16) with (256 * 256).
  change (2 ^ 8) with 256.
  rewrite <- !Z.div_div by lia.
  pose proof (Z.div_mod h 256 ltac:(lia)) as E0.
  pose proof (Z.div_mod (h / 256) 256 ltac:(lia)) as E1.
  pose proof (Z.div_mod (h / 256 / 256) 256 ltac:(lia)) as E2.
  pose proof (Z.mod_pos_bound h 256 ltac:(lia)).
  pose proof (Z.mod_pos_bound (h / 256) 256 ltac:(lia)).
  pose proof (Z.mod_pos_bound (h / 256 / 256) 256 ltac:(lia)).
  assert (Hs : 0 <= h / 256 / 256 / 256 < 256).
  { split; [repeat apply Z.div_pos; lia |].
    repeat apply Z.div_lt_upper_bound; lia. }
  rewrite (Z.mod_small (h / 256 / 256 / 256)) by lia.
  lia.
Qed.

(** ** Gas price *)

(** C5. For a non-negative base gas price, [GasPrice] is
    [baseGasPrice + baseGasPrice * gasPriceCoef / 255] with truncating
    division, [gasPriceCoef] being the [uint8] coefficient of the body. *)
Theorem GasPrice_formula (t : Transaction) (baseGasPrice : Z) :
  0 <= baseGasPrice ->
  GasPrice t baseGasPrice =
    baseGasPrice
    + Z.quot (baseGasPrice * u8 (GasPriceCoef (tx_body t))) 255.
Proof.
  intros Hb. unfold GasPrice, MaxUint8.
  pose proof (u8_range (GasPriceCoef (tx_body t))) as Hc.
  rewrite euclid_div_nonneg by nia.
  rewrite (Z.mul_comm baseGasPrice). lia.
Qed.

(** ** Delay measurement *)

(** C4. [measureDelay] returns the infinite-delay sentinel
    [math.MaxUint32] when the referenced block number is not below the
    head number, when the gap exceeds [MaxTxWorkDelay], or when the
    block id looked up at the referenced number does not start with the
    eight bytes of the block reference; in every other case it returns
    the gap [headBlockNum - refNumber]. *)
Theorem measureDelay_cases (t : Transaction) (headBlockNum : Z)
        (getBlockID : Z -> Bytes32) :
  is_u32 headBlockNum ->
  let ref := Transaction_BlockRef t in
  let refNumber := BlockRef_Number ref in
  (headBlockNum <= refNumber ->
     measureDelay t headBlockNum getBlockID = MaxUint32) /\
  (MaxTxWorkDelay < headBlockNum - refNumber ->
     measureDelay t headBlockNum getBlockID = MaxUint32) /\
  (HasPrefix (getBlockID refNumber) ref = false ->
     measureDelay t headBlockNum getBlockID = MaxUint32) /\
  (refNumber < headBlockNum ->
   headBlockNum - refNumber <= MaxTxWorkDelay ->
   HasPrefix (getBlockID refNumber) ref = true ->
     measureDelay t headBlockNum getBlockID = headBlockNum - refNumber).
Proof.
  intros Hh ref refNumber.
  pose proof (BlockRef_Number_u32 t) as Hr. fold ref refNumber in Hr.
  unfold measureDelay. fold ref refNumber.
  unfold is_u32, MaxUint32 in Hh, Hr.
  assert (Hw : refNumber < headBlockNum ->
               wrap32 (headBlockNum - refNumber) = headBlockNum - refNumber).
  { intros Hlt. unfold wrap32. apply Z.mod_small. lia. }
  repeat split.
  - intros Hge. apply Z.leb_le in Hge. rewrite Hge. reflexivity.
  - intros Hgap.
    destruct (Z.leb_spec headBlockNum refNumber) as [Hge | Hlt]; [reflexivity |].
    rewrite (Hw Hlt). apply Z.ltb_lt in Hgap. rewrite Hgap. reflexivity.
  - intros Hpre.
    destruct (headBlockNum <=? refNumber); [reflexivity |].
    destruct (MaxTxWorkDelay <? _); [reflexivity |].
    rewrite Hpre. reflexivity.
  - intros Hlt Hgap Hpre.
    apply Z.leb_gt in Hlt as Hlt'. rewrite Hlt'.
    rewrite (Hw Hlt). apply Z.ltb_ge in Hgap. rewrite Hgap, Hpre. reflexivity.
Qed.

Lemma HasPrefix_iff s p :
  HasPrefix s p = true <-> exists rest, s = p ++ rest.
Proof.
  revert s. induction p as [| x p IH]; intros s.
  - simpl. split; [intros _; exists s; reflexivity | reflexivity].
  - destruct s as [| c s]; simpl.
    + split; [discriminate | intros [rest H]; discriminate].
    + rewrite andb_true_iff, IH. split.
      * intros [Hc [rest ->]]. apply Byte.byte_dec_bl in Hc. subst.
        exists rest. reflexivity.
      * intros [rest H]. injection H as -> ->.
        split; [apply Byte.byte_dec_lb; reflexivity | exists rest; reflexivity].
Qed.

(** ** The signer cache *)

Lemma bytes_eqb_refl a : bytes_eqb a a = true.
Proof.
  induction a as [| x a IH]; [reflexivity |].
  simpl. rewrite IH, (@Byte.byte_dec_lb x x eq_refl). reflexivity.
Qed.

Lemma bytes_eqb_eq a b : bytes_eqb a b = true <-> a = b.
Proof.
  split; [| intros ->; apply bytes_eqb_refl].
  revert b. induction a as [| x a IH]; intros [| y b]; simpl; try discriminate.
  - reflexivity.
  - rewrite andb_true_iff. intros [Hx Hab].
    apply Byte.byte_dec_bl in Hx. apply IH in Hab. congruence.
Qed.

Lemma LRU_find_get_hit k v c :
  LRU.find k c = Some v ->
  LRU.get k c = (Some v, (k, v) :: LRU.remove k c) /\
  LRU.find k ((k, v) :: LRU.remove k c) = Some v.
Proof.
  intros H. unfold LRU.get. rewrite H. split; [reflexivity |].
  simpl. rewrite bytes_eqb_refl. reflexivity.
Qed.

Lemma LRU_find_add k v c : LRU.find k (LRU.add k v c) = Some v.
Proof.
  unfold LRU.add, LRU.signerCacheSize.
  change 1024%nat with (S 1023). rewrite firstn_cons.
  simpl LRU.find. rewrite bytes_eqb_refl. reflexivity.
Qed.

(** ** Memoised identity *)

Ltac run :=
  cbv beta iota zeta delta
    [bind ret lift get_cache get_body set_cache store_signingHash
     store_signer store_id signerCache_Get signerCache_Add outcome_map];
  cbn [self signerCache tx_body tx_cache
       c_signingHash c_signer c_id c_size fst snd].

Tactic Notation "proj" :=
  cbn [self tx_body tx_cache signerCache c_signingHash c_signer c_id c_size].
Tactic Notation "proj" "in" ne_hyp_list(Hs) :=
  cbn [self tx_body tx_cache signerCache c_signingHash c_signer c_id c_size]
    in Hs.

Lemma SigningHash_spec w :
  world_ok w ->
  exists w',
    SigningHash w = Done (signingHashOf (tx_body (self w)), w') /\
    world_ok w' /\
    tx_body (self w') = tx_body (self w) /\
    signerCache w' = signerCache w /\
    c_signer (tx_cache (self w')) = c_signer (tx_cache (self w)) /\
    c_id (tx_cache (self w')) = c_id (tx_cache (self w)).
Proof.
  intros Hok. pose proof Hok as (Hsh & Hsg & Hlru & Hid).
  destruct w as [[b [sh sg i sz]] sc]. proj in Hsh Hsg Hlru Hid.
  unfold SigningHash. run.
  destruct sh as [h |].
  - run. rewrite (Hsh h eq_refl). eexists. split; [reflexivity |].
    rewrite <- (Hsh h eq_refl). repeat split; assumption.
  - run. fold (signingHashOf b). eexists. split; [reflexivity |].
    split; [| repeat split].
    unfold world_ok. proj. repeat split; try assumption.
    intros h [= <-]. reflexivity.
Qed.

Lemma Signer_spec w :
  world_ok w ->
  exists w',
    Signer w = Done (signerResult (tx_body (self w)), w') /\
    world_ok w' /\
    tx_body (self w') = tx_body (self w) /\
    c_id (tx_cache (self w')) = c_id (tx_cache (self w)) /\
    (forall a, recoverOf (tx_body (self w)) = Some a ->
               c_signer (tx_cache (self w')) = Some a).
Proof.
  intros Hok. pose proof Hok as (Hsh & Hsg & Hlru & Hid).
  destruct w as [[b [sh sg i sz]] sc]. proj in Hsh Hsg Hlru Hid.
  unfold Signer. run.
  destruct sg as [a |].
  - run. unfold signerResult. rewrite (Hsg a eq_refl).
    eexists. split; [reflexivity |]. repeat split; try assumption.
    proj. intros a' Ha'. congruence.
  - run. fold (fingerprintOf b).
    destruct (LRU.find (fingerprintOf b) sc) as [v |] eqn:Hfind.
    + destruct (LRU_find_get_hit _ _ _ Hfind) as [Hget Hfind'].
      rewrite Hget. run. unfold signerResult. rewrite (Hlru v eq_refl).
      eexists. split; [reflexivity |].
      split; [| repeat split].
      * unfold world_ok. proj.
        split; [assumption | split; [| split; [| assumption]]].
        -- intros a [= <-]. apply Hlru. reflexivity.
        -- intros a. rewrite Hfind'. intros [= <-]. apply Hlru. reflexivity.
      * proj. intros a Ha. congruence.
    + unfold LRU.get. rewrite Hfind. run.
      set (w0 := mkWorld (mkTx b (mkCache sh None i sz)) sc).
      destruct (SigningHash_spec w0 Hok)
        as (w1 & Hrun & Hok1 & Hb1 & Hsc1 & Hsg1 & Hid1).
      rewrite Hrun. cbn [self tx_body w0].
      destruct w1 as [[b1 [sh1 sg1 i1 sz1]] sc1].
      proj in Hb1 Hsc1 Hsg1 Hid1. subst b1 sc1 sg1 i1.
      unfold signerResult. unfold recoverOf at 1.
      destruct (recoverAddress (signingHashOf b) (Signature b)) as [signer |] eqn:Hrec.
      * run. eexists. split; [reflexivity |].
        destruct Hok1 as (Hsh1 & _ & _ & Hid1). proj in Hsh1 Hid1.
        split; [| repeat split].
        -- unfold world_ok. proj.
           split; [assumption | split; [| split; [| assumption]]].
           ++ intros a [= <-]. exact Hrec.
           ++ intros a. rewrite LRU_find_add. intros [= <-]. exact Hrec.
        -- proj. intros a Ha. unfold recoverOf in Ha. congruence.
      * run. eexists. split; [reflexivity |].
        split; [exact Hok1 | repeat split].
        intros a Ha. unfold recoverOf in Ha. congruence.
Qed.

Lemma makeID_spec w signer :
  world_ok w ->
  exists w',
    makeID signer w =
      Done (keccak256 (signingHashOf (tx_body (self w)) ++ signer), w') /\
    world_ok w' /\
    tx_body (self w') = tx_body (self w) /\
    signerCache w' = signerCache w /\
    c_signer (tx_cache (self w')) = c_signer (tx_cache (self w)) /\
    c_id (tx_cache (self w')) = c_id (tx_cache (self w)).
Proof.
  intros Hok.
  destruct (SigningHash_spec w Hok) as (w1 & Hrun & Hrest).
  unfold makeID, bind. rewrite Hrun. run.
  exists w1. split; [reflexivity | exact Hrest].
Qed.

Lemma ID_spec w :
  world_ok w ->
  exists w',
    ID w = Done (idOf (tx_body (self w)), w') /\
    world_ok w' /\
    tx_body (self w') = tx_body (self w) /\
    c_id (tx_cache (self w')) = Some (idOf (tx_body (self w))).
Proof.
  intros Hok. pose proof Hok as (_ & _ & _ & Hid).
  destruct w as [[b [sh sg i sz]] sc]. proj in Hid. proj.
  unfold ID. run.
  destruct i as [cached |].
  - rewrite <- (Hid cached eq_refl). eexists.
    split; [reflexivity | split; [exact Hok | split; reflexivity]].
  - set (w := mkWorld (mkTx b (mkCache sh sg None sz)) sc) in *.
    destruct (Signer_spec w Hok) as (w1 & Hrun & Hok1 & Hb1 & Hid1 & Hsg1).
    rewrite Hrun. subst w. proj in Hb1 Hid1 Hsg1 Hrun. proj.
    destruct w1 as [[b1 [sh1 sg1 i1 sz1]] sc1]. proj in Hb1 Hid1 Hsg1.
    subst b1 i1.
    unfold signerResult, idOf.
    destruct (recoverOf b) as [signer |] eqn:Hrec; run.
    + set (w1 := mkWorld (mkTx b (mkCache sh1 sg1 None sz1)) sc1) in *.
      destruct (makeID_spec w1 signer Hok1)
        as (w2 & Hrun2 & Hok2 & Hb2 & Hsc2 & Hsg2 & Hid2).
      rewrite Hrun2. subst w1. proj in Hb2 Hsc2 Hsg2 Hid2. proj.
      destruct w2 as [[b2 [sh2 sg2 i2 sz2]] sc2]. proj in Hb2 Hsc2 Hsg2 Hid2.
      subst b2. run.
      eexists. split; [reflexivity |].
      destruct Hok2 as (Hsh2 & Hsg2' & Hlru2 & _).
      proj in Hsh2 Hsg2' Hlru2.
      split; [| split; reflexivity].
      unfold world_ok. proj.
      split; [assumption | split; [assumption | split; [assumption |]]].
      intros i' [= <-]. unfold idOf. rewrite Hrec. reflexivity.
    + eexists. split; [reflexivity |].
      destruct Hok1 as (Hsh1 & Hsg1' & Hlru1 & _).
      proj in Hsh1 Hsg1' Hlru1.
      split; [| split; reflexivity].
      unfold world_ok. proj.
      split; [assumption | split; [assumption | split; [assumption |]]].
      intros i' [= <-]. unfold idOf. rewrite Hrec. reflexivity.
Qed.

(** A transaction whose cache is unset, in a process whose signer cache
    is empty, satisfies the invariant. *)
Lemma world_ok_fresh b : world_ok (mkWorld (mkTx b empty_cache) []).
Proof.
  unfold world_ok. proj. unfold empty_cache. proj.
  repeat split; intros ? H; discriminate H.
Qed.

(** The identity methods never panic, whatever the caches hold. *)
Lemma SigningHash_total w : exists h w', SigningHash w = Done (h, w').
Proof.
  unfold SigningHash. run.
  destruct (c_signingHash (tx_cache (self w))); run; eauto.
Qed.

Lemma Signer_total w : exists r w', Signer w = Done (r, w').
Proof.
  unfold Signer. run.
  destruct (c_signer (tx_cache (self w))); run; eauto.
  destruct (LRU.get _ _) as [[v |] c']; run; eauto.
  match goal with
  | |- context [SigningHash ?w0] =>
      destruct (SigningHash_total w0) as (h & w1 & Hrun); rewrite Hrun
  end.
  destruct (recoverAddress h _); run; eauto.
Qed.

Lemma makeID_total signer w : exists i w', makeID signer w = Done (i, w').
Proof.
  unfold makeID. run.
  destruct (SigningHash_total w) as (h & w1 & Hrun). rewrite Hrun. eauto.
Qed.

Lemma ID_total w : exists i w', ID w = Done (i, w').
Proof.
  unfold ID. run.
  destruct (c_id (tx_cache (self w))); run; eauto.
  destruct (Signer_total w) as ([a e] & w1 & Hrun). rewrite Hrun. proj.
  cbn [fst snd].
  destruct e; run; eauto.
  destruct (makeID_total a w1) as (i & w2 & Hrun2). rewrite Hrun2. eauto.
Qed.

(** The only panic of the work computation is the division by zero. *)
Lemma idToWork_cases id :
  (be_to_Z id = 0 /\ idToWork id = Panic DivisionByZero) \/
  (0 < be_to_Z id /\ idToWork id = Done (MaxBig256 / be_to_Z id)).
Proof.
  unfold idToWork, bigDiv. pose proof (be_to_Z_range id) as Hr.
  destruct (Z.eqb_spec (be_to_Z id) 0) as [H0 | Hn0].
  - left. split; [exact H0 | reflexivity].
  - right. split; [lia |]. rewrite euclid_div_pos by lia. reflexivity.
Qed.

Lemma ProvedWork_outcome w :
  (exists work w', ProvedWork w = Done (work, w')) \/
  ProvedWork w = Panic DivisionByZero.
Proof.
  unfold ProvedWork. run.
  destruct (Signer_total w) as ([a e] & w1 & Hrun). rewrite Hrun.
  cbn [fst snd]. destruct e; [left; eauto |].
  destruct (ID_total w1) as (i & w2 & Hrun2). rewrite Hrun2.
  destruct (idToWork_cases i) as [[_ ->] | [_ ->]]; [right | left]; eauto.
Qed.

(** Without a signer the proved work is zero, and the state is the one
    [Signer] leaves. *)
Lemma ProvedWork_unsigned w a e w1 :
  Signer w = Done ((a, Some e), w1) -> ProvedWork w = Done (0, w1).
Proof.
  intros Hfail. unfold ProvedWork. run. rewrite Hfail. reflexivity.
Qed.

(** ** C1: the id of a transaction without signer *)

(** C1 (amended). For every transaction whose [Signer] fails, [ID]
    returns the invalid-id sentinel; the deferred store memoises every
    computed id, the sentinel included: after the call the id cache
    holds the sentinel, and a subsequent [ID] call returns it from the
    cache and leaves the state as it is. *)
Theorem ID_sentinel_is_memoised (w : world) :
  world_ok w ->
  forall a e w1, Signer w = Done ((a, Some e), w1) ->
  exists w2,
    ID w = Done (invalidTxID, w2) /\
    c_id (tx_cache (self w2)) = Some invalidTxID /\
    ID w2 = Done (invalidTxID, w2).
Proof.
  intros Hok a e w1 Hfail.
  destruct (Signer_spec w Hok) as (w1' & Hrun & _).
  rewrite Hrun in Hfail. injection Hfail as Hres _.
  assert (Hid : idOf (tx_body (self w)) = invalidTxID).
  { unfold signerResult in Hres. unfold idOf.
    destruct (recoverOf (tx_body (self w))); [discriminate | reflexivity]. }
  destruct (ID_spec w Hok) as (w2 & Hrun2 & _ & _ & Hc).
  rewrite Hid in Hrun2, Hc.
  exists w2. split; [exact Hrun2 | split; [exact Hc |]].
  unfold ID. run. rewrite Hc. reflexivity.
Qed.

(** ** C8 and C10: proved work *)

(** C8. [ProvedWork] returns zero when [Signer] fails.  When [Signer]
    succeeds with address [s], it is [MaxBig256 / ID()], the division
    being that of [big.Int], and it is what [EvaluateWork(s)]
    returns. *)
Theorem ProvedWork_spec (w : world) :
  (forall a e w1, Signer w = Done ((a, Some e), w1) ->
     result_of (ProvedWork w) = Done 0) /\
  (world_ok w ->
   forall s w1, Signer w = Done ((s, None), w1) ->
   exists id wi,
     ID w = Done (id, wi) /\
     result_of (ProvedWork w) = bigDiv MaxBig256 (be_to_Z id) /\
     (be_to_Z id <> 0 ->
      result_of (ProvedWork w) = Done (MaxBig256 / be_to_Z id)) /\
     result_of (ProvedWork w) = result_of (EvaluateWork s w)).
Proof.
  split.
  - intros a e w1 Hfail. rewrite (ProvedWork_unsigned w a e w1 Hfail).
    reflexivity.
  - intros Hok s w1 Hrun.
    destruct (Signer_spec w Hok) as (w1' & Hrun' & Hok1 & Hb1 & _).
    rewrite Hrun in Hrun'. injection Hrun' as Hres <-.
    assert (Hrec : recoverOf (tx_body (self w)) = Some s).
    { unfold signerResult in Hres.
      destruct (recoverOf (tx_body (self w))); [congruence | discriminate]. }
    destruct (ID_spec w Hok) as (wi & Hid & _).
    destruct (ID_spec w1 Hok1) as (w2 & Hid1 & _).
    rewrite Hb1 in Hid1.
    destruct (makeID_spec w s Hok) as (w3 & Hmk & _).
    assert (Hidv : idOf (tx_body (self w))
                   = keccak256 (signingHashOf (tx_body (self w)) ++ s))
      by (unfold idOf; rewrite Hrec; reflexivity).
    assert (Hpw : result_of (ProvedWork w)
                  = bigDiv MaxBig256 (be_to_Z (idOf (tx_body (self w))))).
    { unfold ProvedWork. run. rewrite Hrun. cbn [fst snd]. rewrite Hid1.
      unfold result_of, idToWork.
      destruct (bigDiv _ _); reflexivity. }
    exists (idOf (tx_body (self w))), wi.
    split; [exact Hid | split; [exact Hpw | split]].
    + intros Hnz. rewrite Hpw. unfold bigDiv.
      pose proof (be_to_Z_range (idOf (tx_body (self w)))).
      destruct (Z.eqb_spec (be_to_Z (idOf (tx_body (self w)))) 0); [contradiction |].
      rewrite euclid_div_pos by lia. reflexivity.
    + rewrite Hpw. unfold EvaluateWork. run. rewrite Hmk, <- Hidv.
      unfold result_of, idToWork.
      destruct (bigDiv _ _); reflexivity.
Qed.

(** C10. [idToWork] divides [MaxBig256] by the id read as an unsigned
    integer, without a zero check: on the all-zero 32-byte id, and on
    any id whose integer is zero, it panics with a division by zero, and
    so do [EvaluateWork] for a candidate signer whose id is zero and
    [ProvedWork] for a signed transaction whose id is zero.  The
    operations return a value only if the id is non-zero, and then the
    value is [MaxBig256 / id]. *)
Theorem idToWork_zero_id_panics :
  idToWork (repeat x00 32) = Panic DivisionByZero /\
  (forall id, be_to_Z id = 0 -> idToWork id = Panic DivisionByZero) /\
  (forall id v, idToWork id = Done v ->
     be_to_Z id <> 0 /\ v = MaxBig256 / be_to_Z id) /\
  (forall w s w', makeID s w = Done (repeat x00 32, w') ->
     EvaluateWork s w = Panic DivisionByZero) /\
  (forall w, world_ok w ->
     forall s w1 wi, Signer w = Done ((s, None), w1) ->
     ID w = Done (repeat x00 32, wi) ->
     ProvedWork w = Panic DivisionByZero).
Proof.
  assert (Hz : forall id, be_to_Z id = 0 -> idToWork id = Panic DivisionByZero).
  { intros id H0. unfold idToWork, bigDiv. rewrite H0. reflexivity. }
  assert (H32 : be_to_Z (repeat x00 32) = 0) by reflexivity.
  split; [apply Hz, H32 | split; [exact Hz | split; [| split]]].
  - intros id v Hdone.
    destruct (idToWork_cases id) as [[_ Hp] | [Hpos Hd]].
    + congruence.
    + split; [lia | congruence].
  - intros w s w' Hmk. unfold EvaluateWork. run. rewrite Hmk. run.
    rewrite (Hz _ H32). reflexivity.
  - intros w Hok s w1 wi Hrun Hid.
    destruct (Signer_spec w Hok) as (w1' & Hrun' & Hok1 & Hb1 & _).
    rewrite Hrun in Hrun'. injection Hrun' as _ <-.
    destruct (ID_spec w Hok) as (wi' & Hid' & _).
    rewrite Hid in Hid'. injection Hid' as Hzero _.
    destruct (ID_spec w1 Hok1) as (w2 & Hid1 & _).
    rewrite Hb1, <- Hzero in Hid1.
    unfold ProvedWork. run. rewrite Hrun. cbn [fst snd]. rewrite Hid1. run.
    rewrite Hz by reflexivity. reflexivity.
Qed.

(** ** C3 and C9: the overall gas price *)

Lemma capped_wgas gas wgas :
  (if gas <? wgas then gas else wgas) = Z.min wgas gas.
Proof.
  destruct (Z.ltb_spec gas wgas); lia.
Qed.

Lemma OverallGasPrice_beyond_delay (w : world) (baseGasPrice headBlockNum : Z)
      (getBlockID : Z -> Bytes32) :
  MaxTxWorkDelay < measureDelay (self w) headBlockNum getBlockID ->
  OverallGasPrice baseGasPrice headBlockNum getBlockID w
  = Done (GasPrice (self w) baseGasPrice, w).
Proof.
  intros Hdelay. unfold OverallGasPrice.
  apply Z.ltb_lt in Hdelay. rewrite Hdelay. reflexivity.
Qed.

Lemma OverallGasPrice_within_delay (w w' : world)
      (baseGasPrice headBlockNum work : Z) (getBlockID : Z -> Bytes32) :
  measureDelay (self w) headBlockNum getBlockID <= MaxTxWorkDelay ->
  ProvedWork w = Done (work, w') ->
  OverallGasPrice baseGasPrice headBlockNum getBlockID w
  = outcome_map
      (fun q => (GasPrice (self w) baseGasPrice + q, w'))
      (bigDiv (Z.min (workToGas work headBlockNum) (Gas (tx_body (self w)))
               * baseGasPrice)
              (Gas (tx_body (self w)))).
Proof.
  intros Hdelay Hwork. unfold OverallGasPrice.
  apply Z.ltb_ge in Hdelay. rewrite Hdelay.
  run. rewrite Hwork. rewrite capped_wgas.
  destruct (bigDiv _ _) as [q | p]; [| reflexivity].
  rewrite (Z.add_comm q). reflexivity.
Qed.

Lemma OverallGasPrice_work_panics (w : world) (baseGasPrice headBlockNum : Z)
      (getBlockID : Z -> Bytes32) (p : panic) :
  measureDelay (self w) headBlockNum getBlockID <= MaxTxWorkDelay ->
  ProvedWork w = Panic p ->
  OverallGasPrice baseGasPrice headBlockNum getBlockID w = Panic p.
Proof.
  intros Hdelay Hwork. unfold OverallGasPrice.
  apply Z.ltb_ge in Hdelay. rewrite Hdelay.
  run. rewrite Hwork. reflexivity.
Qed.

(** C3. If the measured delay exceeds [MaxTxWorkDelay],
    [OverallGasPrice] is the plain [GasPrice] and no cache is touched;
    this holds also for an unsigned transaction, whose proved work is
    zero.
    Otherwise it is [gasPrice + (workGas * baseGasPrice) / gas], where
    [workGas] is [workToGas] of the proved work capped at the declared
    gas and [/] is the division of [big.Int]; for a non-zero declared
    gas this is the floor division of the integers. *)
Theorem OverallGasPrice_spec (w : world) (baseGasPrice headBlockNum : Z)
        (getBlockID : Z -> Bytes32) :
  let t := self w in
  let gas := Gas (tx_body t) in
  let gasPrice := GasPrice t baseGasPrice in
  (MaxTxWorkDelay < measureDelay t headBlockNum getBlockID ->
     OverallGasPrice baseGasPrice headBlockNum getBlockID w
     = Done (gasPrice, w)) /\
  (MaxTxWorkDelay < measureDelay t headBlockNum getBlockID ->
   forall a e w1, Signer w = Done ((a, Some e), w1) ->
     result_of (ProvedWork w) = Done 0 /\
     result_of (OverallGasPrice baseGasPrice headBlockNum getBlockID w)
     = Done gasPrice) /\
  (measureDelay t headBlockNum getBlockID <= MaxTxWorkDelay ->
   forall work w', ProvedWork w = Done (work, w') ->
     let workGas := Z.min (workToGas work headBlockNum) gas in
     OverallGasPrice baseGasPrice headBlockNum getBlockID w
     = outcome_map (fun q => (gasPrice + q, w'))
                   (bigDiv (workGas * baseGasPrice) gas) /\
     (0 < gas ->
      OverallGasPrice baseGasPrice headBlockNum getBlockID w
      = Done (gasPrice + (workGas * baseGasPrice) / gas, w'))).
Proof.
  intros t gas gasPrice. split; [| split].
  - apply OverallGasPrice_beyond_delay.
  - intros Hdelay a e w1 Hfail.
    rewrite (ProvedWork_unsigned w a e w1 Hfail).
    rewrite (OverallGasPrice_beyond_delay w _ _ _ Hdelay).
    split; reflexivity.
  - intros Hdelay work w' Hwork workGas.
    pose proof (OverallGasPrice_within_delay w w' baseGasPrice headBlockNum
                  work getBlockID Hdelay Hwork) as Hgen.
    split; [exact Hgen |].
    intros Hgas. rewrite Hgen. fold t gas workGas gasPrice. unfold bigDiv.
    destruct (Z.eqb_spec gas 0); [lia |].
    rewrite euclid_div_pos by exact Hgas. reflexivity.
Qed.

(** C9. [OverallGasPrice] divides by the declared gas without a zero
    guard: for a body with [Gas = 0] whose measured delay does not exceed
    [MaxTxWorkDelay] the call panics with a division by zero, so it
    returns a price only if [Gas > 0] or the delay exceeds
    [MaxTxWorkDelay]. *)
Theorem OverallGasPrice_zero_gas_panics (w : world)
        (baseGasPrice headBlockNum : Z) (getBlockID : Z -> Bytes32) :
  let t := self w in
  (Gas (tx_body t) = 0 ->
   measureDelay t headBlockNum getBlockID <= MaxTxWorkDelay ->
     OverallGasPrice baseGasPrice headBlockNum getBlockID w
     = Panic DivisionByZero) /\
  (0 <= Gas (tx_body t) ->
   forall price w',
     OverallGasPrice baseGasPrice headBlockNum getBlockID w
     = Done (price, w') ->
     0 < Gas (tx_body t) \/
     MaxTxWorkDelay < measureDelay t headBlockNum getBlockID).
Proof.
  intros t.
  assert (Hpanic : Gas (tx_body t) = 0 ->
            measureDelay t headBlockNum getBlockID <= MaxTxWorkDelay ->
            OverallGasPrice baseGasPrice headBlockNum getBlockID w
            = Panic DivisionByZero).
  { intros Hgas Hdelay.
    destruct (ProvedWork_outcome w) as [(work & w' & Hwork) | Hwork].
    - rewrite (OverallGasPrice_within_delay w w' baseGasPrice headBlockNum
                 work getBlockID Hdelay Hwork).
      fold t. rewrite Hgas. reflexivity.
    - apply OverallGasPrice_work_panics; assumption. }
  split; [exact Hpanic |].
  intros Hnonneg price w' Hdone.
  destruct (Z.eq_dec (Gas (tx_body t)) 0) as [Hz | Hnz]; [| left; lia].
  right.
  destruct (Z.lt_ge_cases MaxTxWorkDelay
              (measureDelay t headBlockNum getBlockID)) as [Hlt | Hge];
    [exact Hlt |].
  rewrite (Hpanic Hz Hge) in Hdone. discriminate Hdone.
Qed.

(** ** C7: attaching a signature *)

Lemma signing_fields_set_Signature b sig :
  Codec.signing_fields (set_Signature b sig) = Codec.signing_fields b.
Proof. reflexivity. Qed.

(** The signing hash reads every field but the signature. *)
Lemma signingHashOf_ignores_signature b1 b2 :
  ChainTag b1 = ChainTag b2 -> Nonce b1 = Nonce b2 ->
  BlockRef b1 = BlockRef b2 -> Clauses b1 = Clauses b2 ->
  GasPriceCoef b1 = GasPriceCoef b2 -> Gas b1 = Gas b2 ->
  DependsOn b1 = DependsOn b2 -> Reserved b1 = Reserved b2 ->
  signingHashOf b1 = signingHashOf b2.
Proof.
  intros. unfold signingHashOf, Codec.signing_item, Codec.signing_fields.
  congruence.
Qed.

Lemma invoke_frame {A} (m : M A) (t l : loc) (obj : Transaction)
      (s : heapWorld) :
  l <> t ->
  heap_result (invoke t m (mkHeapWorld (<[l := obj]> (heap s))
                                       (globalSignerCache s)))
  = heap_result (invoke t m s).
Proof.
  intros Hne. unfold invoke. cbn [heap globalSignerCache].
  rewrite lookup_insert_ne by exact Hne.
  destruct (heap s !! t) as [o |]; [| reflexivity].
  destruct (m _) as [[a w'] | p]; reflexivity.
Qed.

(** C7. [t.WithSignature(sig)] returns a new transaction whose body is
    that of [t] except for the signature, which is [sig]; the receiver
    and the signer cache are left as they were, so [t.ID()],
    [t.SigningHash()] and [t.Signer()] return what they returned
    before; and the signing hash of the new transaction is that of [t]:
    the signing hash does not depend on the signature. *)
Theorem WithSignature_frame (s : heapWorld) (t : loc) (sig : list byte)
        (obj : Transaction) :
  heap s !! t = Some obj ->
  exists l s' newTx,
    WithSignature t sig s = Done (l, s') /\
    l <> t /\
    heap s' !! l = Some newTx /\
    (let b := tx_body obj in
     let b' := tx_body newTx in
     ChainTag b' = ChainTag b /\ Nonce b' = Nonce b /\
     BlockRef b' = BlockRef b /\ Clauses b' = Clauses b /\
     GasPriceCoef b' = GasPriceCoef b /\ Gas b' = Gas b /\
     DependsOn b' = DependsOn b /\ Reserved b' = Reserved b /\
     Signature b' = sig) /\
    heap s' !! t = Some obj /\
    globalSignerCache s' = globalSignerCache s /\
    heap_result (invoke t ID s') = heap_result (invoke t ID s) /\
    heap_result (invoke t SigningHash s')
      = heap_result (invoke t SigningHash s) /\
    heap_result (invoke t Signer s') = heap_result (invoke t Signer s) /\
    signingHashOf (tx_body newTx) = signingHashOf (tx_body obj) /\
    (world_ok (mkWorld obj (globalSignerCache s)) ->
     heap_result (invoke l SigningHash s')
       = heap_result (invoke t SigningHash s)).
Proof.
  intros Hobj.
  set (l := fresh (dom (heap s))).
  assert (Hl : l <> t).
  { intros Heq. apply (is_fresh (dom (heap s))). fold l. rewrite Heq.
    apply elem_of_dom. exists obj. exact Hobj. }
  exists l. eexists. eexists.
  split; [unfold WithSignature; rewrite Hobj; reflexivity |].
  cbn [heap globalSignerCache].
  split; [exact Hl |].
  split; [apply lookup_insert_eq |].
  split; [cbn; repeat split |].
  split; [rewrite lookup_insert_ne by exact Hl; exact Hobj |].
  split; [reflexivity |].
  split; [apply invoke_frame, Hl |].
  split; [apply invoke_frame, Hl |].
  split; [apply invoke_frame, Hl |].
  split; [reflexivity |].
  intros Hok.
  destruct (SigningHash_spec _ Hok) as (w1 & Hrun & _). proj in Hrun.
  unfold invoke. cbn [heap globalSignerCache].
  rewrite lookup_insert_eq, Hobj, Hrun.
  unfold SigningHash. run. reflexivity.
Qed.

(** ** C6: the codec round trip *)

(** *** Big-endian digits *)

Lemma be_digits_spec fuel : forall n acc,
  0 <= n < 2 ^ Z.of_nat fuel ->
  exists ds,
    be_digits fuel n acc = ds ++ acc /\
    be_to_Z ds = n /\
    Codec.no_leading_zero ds = true /\
    (0 < n -> ds <> []) /\
    (forall k, n < 256 ^ Z.of_nat k -> (length ds <= k)%nat).
Proof.
  induction fuel as [| fuel IH]; intros n acc Hn.
  - exists []. cbn in Hn. assert (n = 0) by lia. subst n.
    repeat split; try reflexivity; [lia | intros; cbn; lia].
  - cbn [be_digits].
    destruct (Z.leb_spec n 0) as [Hle | Hgt].
    + exists []. assert (n = 0) by lia. subst n.
      repeat split; try reflexivity; [lia | intros; cbn; lia].
    + rewrite Nat2Z.inj_succ, Z.pow_succ_r in Hn by lia.
      assert (Hq : 0 <= n / 256 < 2 ^ Z.of_nat fuel).
      { split; [apply Z.div_pos; lia |].
        apply Z.div_lt_upper_bound; lia. }
      destruct (IH (n / 256) (byte_of_Z n :: acc) Hq)
        as (ds & Hrun & Hval & Hlead & Hne & Hlen).
      exists (ds ++ [byte_of_Z n]).
      pose proof (Z.div_mod n 256 ltac:(lia)) as Hdm.
      pose proof (Z.mod_pos_bound n 256 ltac:(lia)) as Hmb.
      split; [rewrite Hrun, <- app_assoc; reflexivity |].
      split; [rewrite be_to_Z_snoc, Hval, u8_byte_of_Z; lia |].
      split; [| split].
      * destruct ds as [| d ds]; [| exact Hlead].
        cbn [app Codec.no_leading_zero]. rewrite u8_byte_of_Z.
        cbn in Hval.
        destruct (Z.eqb_spec (n mod 256) 0); [lia | reflexivity].
      * intros _. destruct ds; discriminate.
      * intros k Hk. rewrite length_app. cbn [length].
        destruct k as [| k]; [cbn in Hk; lia |].
        rewrite Nat2Z.inj_succ, Z.pow_succ_r in Hk by lia.
        assert (Hk' : n / 256 < 256 ^ Z.of_nat k)
          by (apply Z.div_lt_upper_bound; lia).
        specialize (Hlen k Hk'). lia.
Qed.

Lemma Z_to_be_spec n :
  0 <= n ->
  be_to_Z (Z_to_be n) = n /\
  Codec.no_leading_zero (Z_to_be n) = true /\
  (0 < n -> Z_to_be n <> []) /\
  (forall k, n < 256 ^ Z.of_nat k -> (length (Z_to_be n) <= k)%nat).
Proof.
  intros Hn. unfold Z_to_be.
  assert (Hfuel : 0 <= n < 2 ^ Z.of_nat (S (Z.to_nat (Z.log2 n)))).
  { split; [exact Hn |].
    rewrite Nat2Z.inj_succ, Z2Nat.id by apply Z.log2_nonneg.
    destruct (Z.eq_dec n 0) as [-> | Hnz]; [cbn; lia |].
    apply Z.log2_spec. lia. }
  destruct (be_digits_spec _ n [] Hfuel) as (ds & Hrun & Hrest).
  rewrite Hrun, app_nil_r. exact Hrest.
Qed.

Lemma Z_to_be_u8 c :
  Z_to_be (u8 c) = if u8 c =? 0 then [] else [c].
Proof.
  pose proof (u8_range c) as Hc.
  destruct (Z_to_be_spec (u8 c) ltac:(lia)) as (Hval & _ & Hne & Hlen).
  specialize (Hlen 1%nat ltac:(cbn; lia)).
  destruct (Z_to_be (u8 c)) as [| d [| e l]] eqn:Hd; cbn in Hlen; try lia.
  - cbn in Hval. rewrite <- Hval. reflexivity.
  - rewrite be_to_Z_cons in Hval. cbn in Hval.
    assert (Hdc : u8 d = u8 c) by lia. apply u8_inj in Hdc. subst d.
    destruct (Z.eqb_spec (u8 c) 0) as [H0 | _]; [| reflexivity].
    destruct (Z_to_be_spec (u8 c) ltac:(lia)) as (_ & Hlead & _).
    rewrite Hd in Hlead. cbn in Hlead. rewrite H0 in Hlead. discriminate.
Qed.

(** *** Items *)

Lemma split_at_app (s rest : list byte) :
  RLP.split_at (length s) (s ++ rest) = Some (s, rest).
Proof.
  unfold RLP.split_at. rewrite length_app.
  assert (H : (length s <=? length s + length rest)%nat = true)
    by (apply Nat.leb_le; lia).
  rewrite H, take_app_length, drop_app_length. reflexivity.
Qed.

Lemma header_short offset len :
  Z.of_nat len < 56 ->
  RLP.header offset len = [byte_of_Z (offset + Z.of_nat len)].
Proof.
  intros H. unfold RLP.header. apply Z.ltb_lt in H. rewrite H. reflexivity.
Qed.

Lemma header_long offset len :
  56 <= Z.of_nat len < 2 ^ 64 ->
  exists bl,
    RLP.header offset len
    = byte_of_Z (offset + 55 + Z.of_nat (length bl)) :: bl /\
    (1 <= length bl <= 8)%nat /\
    RLP.long_length bl = Some len.
Proof.
  intros [Hlo Hhi]. unfold RLP.header.
  assert (H : (Z.of_nat len <? 56) = false) by (apply Z.ltb_ge; lia).
  rewrite H. exists (Z_to_be (Z.of_nat len)).
  destruct (Z_to_be_spec (Z.of_nat len) ltac:(lia))
    as (Hval & Hlead & Hne & Hlen).
  specialize (Hlen 8%nat ltac:(change (256 ^ Z.of_nat 8) with (2 ^ 64); lia)).
  specialize (Hne ltac:(lia)).
  split; [reflexivity |].
  destruct (Z_to_be (Z.of_nat len)) as [| b bl] eqn:Hbl; [congruence |].
  split; [cbn [length] in *; lia |].
  unfold RLP.long_length. rewrite Hval.
  cbn in Hlead. apply negb_true_iff in Hlead. rewrite Hlead.
  rewrite H. cbn [orb]. rewrite Nat2Z.id. reflexivity.
Qed.

Lemma decode_unfold fuel b rest :
  RLP.decode (S fuel) (b :: rest) =
    let n := u8 b in
    if n <? 128 then Some (RLP.Str [b], rest)
    else if n <? 184 then
      match RLP.split_at (Z.to_nat (n - 128)) rest with
      | Some ([c], rest') =>
          if u8 c <? 128 then None else Some (RLP.Str [c], rest')
      | Some (s, rest') => Some (RLP.Str s, rest')
      | None => None
      end
    else if n <? 192 then
      match RLP.split_at (Z.to_nat (n - 183)) rest with
      | Some (lb, rest1) =>
          match RLP.long_length lb with
          | Some len =>
              match RLP.split_at len rest1 with
              | Some (s, rest') => Some (RLP.Str s, rest')
              | None => None
              end
          | None => None
          end
      | None => None
      end
    else if n <? 248 then
      match RLP.split_at (Z.to_nat (n - 192)) rest with
      | Some (payload, rest') =>
          match RLP.decode_seq (RLP.decode fuel) (length payload) payload with
          | Some xs => Some (RLP.Lst xs, rest')
          | None => None
          end
      | None => None
      end
    else
      match RLP.split_at (Z.to_nat (n - 247)) rest with
      | Some (lb, rest1) =>
          match RLP.long_length lb with
          | Some len =>
              match RLP.split_at len rest1 with
              | Some (payload, rest') =>
                  match RLP.decode_seq (RLP.decode fuel) (length payload) payload with
                  | Some xs => Some (RLP.Lst xs, rest')
                  | None => None
                  end
              | None => None
              end
          | None => None
          end
      | None => None
      end.
Proof. reflexivity. Qed.

Ltac zcmp :=
  repeat match goal with
    | |- context [?a <? ?b] =>
        destruct (Z.ltb_spec a b); try lia
    end.

(** A byte string is decoded from its encoding, whatever follows. *)
Lemma decode_encode_str fuel bs rest :
  Z.of_nat (length bs) < 2 ^ 64 ->
  RLP.decode (S fuel) (RLP.encode_str bs ++ rest) = Some (RLP.Str bs, rest).
Proof.
  intros Hlen.
  assert (Hgen : (forall b, bs = [b] -> 128 <= u8 b) ->
            RLP.decode (S fuel) ((RLP.header 128 (length bs) ++ bs) ++ rest)
            = Some (RLP.Str bs, rest)).
  { intros Hbig.
    destruct (Z.lt_ge_cases (Z.of_nat (length bs)) 56) as [Hs | Hl].
    - rewrite header_short by exact Hs. cbn [app].
      rewrite decode_unfold. cbv zeta.
      rewrite u8_byte_of_Z, Z.mod_small by lia.
      zcmp.
      replace (Z.to_nat (128 + Z.of_nat (length bs) - 128)) with (length bs) by lia.
      rewrite split_at_app.
      destruct bs as [| c [| d bs']]; try reflexivity.
      specialize (Hbig c eq_refl). zcmp. reflexivity.
    - destruct (header_long 128 (length bs) ltac:(lia)) as (bl & -> & Hbl & Hll).
      cbn [app]. rewrite decode_unfold. cbv zeta.
      rewrite u8_byte_of_Z, Z.mod_small by lia.
      zcmp.
      replace (Z.to_nat (128 + 55 + Z.of_nat (length bl) - 183)) with (length bl) by lia.
      rewrite <- app_assoc, split_at_app, Hll, split_at_app. reflexivity. }
  unfold RLP.encode_str.
  destruct bs as [| b [| c bs']]; try (apply Hgen; intros ? [=]).
  destruct (Z.ltb_spec (u8 b) 128) as [Hsmall | Hbig].
  - cbn [app]. rewrite decode_unfold. cbv zeta. zcmp. reflexivity.
  - apply Hgen. intros ? [= <-]. exact Hbig.
Qed.

Lemma encode_nonempty x : (1 <= length (RLP.encode x))%nat.
Proof.
  assert (Hh : forall o len, (1 <= length (RLP.header o len))%nat).
  { intros o len. unfold RLP.header. destruct (_ <? _); cbn [length]; lia. }
  destruct x as [bs | xs]; cbn [RLP.encode].
  - unfold RLP.encode_str.
    destruct bs as [| b [| c bs']]; try destruct (_ <? _);
      rewrite ?length_app; try (specialize (Hh 128 0%nat); cbn [length] in *; lia);
      cbn [length]; try lia;
      match goal with |- context [RLP.header ?o ?l] => specialize (Hh o l) end; lia.
  - rewrite length_app.
    match goal with |- context [RLP.header ?o ?l] => specialize (Hh o l) end; lia.
Qed.

(** The items of a payload are decoded in order. *)
Lemma decode_seq_payload (dec : list byte -> option (RLP.item * list byte)) xs :
  forall n,
  (forall y rest, In y xs -> dec (RLP.encode y ++ rest) = Some (y, rest)) ->
  (length (flat_map RLP.encode xs) <= n)%nat ->
  RLP.decode_seq dec n (flat_map RLP.encode xs) = Some xs.
Proof.
  induction xs as [| y xs IH]; intros n Hdec Hn; [destruct n; reflexivity |].
  cbn [flat_map] in *. rewrite length_app in Hn.
  pose proof (encode_nonempty y) as Hy.
  destruct n as [| n]; [lia |].
  assert (Hstep : forall bs, bs = RLP.encode y ++ flat_map RLP.encode xs ->
            RLP.decode_seq dec (S n) bs = Some (y :: xs)).
  { intros bs ->.
    destruct (RLP.encode y ++ flat_map RLP.encode xs) as [| b l] eqn:Hbs.
    - apply (f_equal (@length byte)) in Hbs. rewrite length_app in Hbs.
      cbn [length] in Hbs. lia.
    - cbn [RLP.decode_seq]. rewrite <- Hbs.
      rewrite (Hdec y _ (or_introl eq_refl)).
      rewrite IH; [reflexivity | | lia].
      intros y' rest' Hin. apply Hdec. right. exact Hin. }
  apply Hstep. reflexivity.
Qed.

Lemma decode_encode_lst fuel xs rest :
  Z.of_nat (length (flat_map RLP.encode xs)) < 2 ^ 64 ->
  (forall y rest', In y xs ->
     RLP.decode fuel (RLP.encode y ++ rest') = Some (y, rest')) ->
  RLP.decode (S fuel) (RLP.encode (RLP.Lst xs) ++ rest)
  = Some (RLP.Lst xs, rest).
Proof.
  intros Hlen Hdec. cbn [RLP.encode]. cbv zeta.
  set (payload := flat_map RLP.encode xs) in *.
  assert (Hseq : RLP.decode_seq (RLP.decode fuel) (length payload) payload
                 = Some xs)
    by (apply decode_seq_payload; [exact Hdec | apply Nat.le_refl]).
  destruct (Z.lt_ge_cases (Z.of_nat (length payload)) 56) as [Hs | Hl].
  - rewrite header_short by exact Hs. cbn [app].
    rewrite decode_unfold. cbv zeta.
    rewrite u8_byte_of_Z, Z.mod_small by lia.
    zcmp.
    replace (Z.to_nat (192 + Z.of_nat (length payload) - 192))
      with (length payload) by lia.
    rewrite split_at_app, Hseq. reflexivity.
  - destruct (header_long 192 (length payload) ltac:(lia))
      as (bl & -> & Hbl & Hll).
    cbn [app]. rewrite decode_unfold. cbv zeta.
    rewrite u8_byte_of_Z, Z.mod_small by lia.
    zcmp.
    replace (Z.to_nat (192 + 55 + Z.of_nat (length bl) - 247))
      with (length bl) by lia.
    rewrite <- app_assoc, split_at_app, Hll, split_at_app, Hseq. reflexivity.
Qed.

Lemma depth_in y xs : In y xs -> (RLP.depth y < RLP.depth (RLP.Lst xs))%nat.
Proof.
  cbn [RLP.depth]. induction xs as [| x xs IH]; intros Hin; [destruct Hin |].
  cbn [fold_right]. destruct Hin as [-> | Hin]; [lia |].
  specialize (IH Hin). lia.
Qed.

Lemma length_encode_in y xs :
  In y xs -> (length (RLP.encode y) <= length (flat_map RLP.encode xs))%nat.
Proof.
  induction xs as [| x xs IH]; intros Hin; [destruct Hin |].
  cbn [flat_map]. rewrite length_app.
  destruct Hin as [-> | Hin]; [lia |]. specialize (IH Hin). lia.
Qed.

Lemma length_payload xs :
  (length (flat_map RLP.encode xs) < length (RLP.encode (RLP.Lst xs)))%nat.
Proof.
  cbn [RLP.encode]. rewrite length_app.
  unfold RLP.header. destruct (_ <? _); cbn [length]; lia.
Qed.

Lemma length_str bs : (length bs <= length (RLP.encode_str bs))%nat.
Proof.
  unfold RLP.encode_str.
  destruct bs as [| b [| c bs']]; try destruct (_ <? _);
    rewrite ?length_app; cbn [length]; lia.
Qed.

(** One item is decoded from the front of its encoding followed by
    anything, given fuel beyond its depth and lengths that fit 64
    bits. *)
Lemma decode_encode fuel : forall x rest,
  (RLP.depth x < fuel)%nat ->
  Z.of_nat (length (RLP.encode x)) < 2 ^ 64 ->
  RLP.decode fuel (RLP.encode x ++ rest) = Some (x, rest).
Proof.
  induction fuel as [| fuel IH]; intros x rest Hd Hlen; [lia |].
  destruct x as [bs | xs].
  - cbn [RLP.encode] in *. apply decode_encode_str.
    pose proof (length_str bs). lia.
  - pose proof (length_payload xs) as Hp.
    apply decode_encode_lst; [lia |].
    intros y rest' Hin. apply IH.
    + pose proof (depth_in y xs Hin). lia.
    + pose proof (length_encode_in y xs Hin). lia.
Qed.

Lemma fold_max_bound xs m :
  (forall y, In y xs -> (RLP.depth y <= m)%nat) ->
  (fold_right (fun y d => Nat.max (RLP.depth y) d) 0%nat xs <= m)%nat.
Proof.
  induction xs as [| x xs IH]; intros Hall; cbn [fold_right]; [lia |].
  pose proof (Hall x (or_introl eq_refl)).
  assert (fold_right (fun y d => Nat.max (RLP.depth y) d) 0%nat xs <= m)%nat
    by (apply IH; intros y Hy; apply Hall; right; exact Hy).
  lia.
Qed.

Lemma depth_le_length n : forall x,
  (RLP.depth x <= n)%nat -> (RLP.depth x <= length (RLP.encode x))%nat.
Proof.
  induction n as [| n IH]; intros x Hn.
  - lia.
  - destruct x as [bs | xs]; [cbn [RLP.depth]; lia |].
    pose proof (length_payload xs) as Hp.
    assert (Hall : forall y, In y xs ->
              (RLP.depth y <= length (flat_map RLP.encode xs))%nat).
    { intros y Hin. pose proof (depth_in y xs Hin).
      pose proof (length_encode_in y xs Hin).
      specialize (IH y ltac:(lia)). lia. }
    cbn [RLP.depth] in *.
    pose proof (fold_max_bound xs _ Hall). lia.
Qed.

(** Decoding the encoding of an item returns the item. *)
Lemma decode_bytes_encode x :
  Z.of_nat (length (RLP.encode x)) < 2 ^ 64 ->
  RLP.decode_bytes (RLP.encode x) = Some x.
Proof.
  intros Hlen. unfold RLP.decode_bytes.
  pose proof (depth_le_length (RLP.depth x) x (Nat.le_refl _)) as Hd.
  rewrite <- (app_nil_r (RLP.encode x)) at 2.
  rewrite decode_encode by (try lia; assumption). reflexivity.
Qed.

(** *** Fields *)

Lemma dec_uint_enc (k : nat) n :
  0 <= n < 256 ^ Z.of_nat k ->
  Codec.dec_uint k (Codec.enc_uint n) = Some n.
Proof.
  intros [Hlo Hhi]. unfold Codec.dec_uint, Codec.enc_uint.
  destruct (Z_to_be_spec n Hlo) as (Hval & Hlead & _ & Hlen).
  specialize (Hlen k Hhi). apply Nat.leb_le in Hlen.
  rewrite Hlen, Hlead, Hval. reflexivity.
Qed.

Lemma dec_u64_enc n : is_u64 n -> Codec.dec_uint 8 (Codec.enc_uint n) = Some n.
Proof.
  unfold is_u64, MaxUint64. intros Hn. apply dec_uint_enc.
  change (256 ^ Z.of_nat 8) with (2 ^ 64). lia.
Qed.

Lemma dec_u8_enc c : Codec.dec_u8 (Codec.enc_uint (u8 c)) = Some c.
Proof.
  unfold Codec.dec_u8. pose proof (u8_range c).
  rewrite dec_uint_enc by (change (256 ^ Z.of_nat 1) with 256; lia).
  rewrite byte_of_Z_u8. reflexivity.
Qed.

Lemma dec_big_enc v : 0 <= v -> Codec.dec_big (Codec.enc_uint v) = Some v.
Proof.
  intros Hv. unfold Codec.dec_big, Codec.enc_uint.
  destruct (Z_to_be_spec v Hv) as (Hval & Hlead & _).
  rewrite Hlead, Hval. reflexivity.
Qed.

Lemma dec_opt_enc (n : nat) o :
  (0 < n)%nat ->
  (forall a, o = Some a -> length a = n) ->
  Codec.dec_opt n (Codec.enc_opt o) = Some o.
Proof.
  intros Hn Hlen. destruct o as [a |]; [| reflexivity].
  specialize (Hlen a eq_refl). unfold Codec.enc_opt, Codec.dec_opt.
  destruct a as [| x a]; [cbn in Hlen; lia |].
  apply Nat.eqb_eq in Hlen. rewrite Hlen. reflexivity.
Qed.

Lemma dec_clause_enc c :
  valid_clause c -> Codec.dec_clause (Codec.enc_clause c) = Some c.
Proof.
  intros [Hto Hval]. unfold Codec.dec_clause, Codec.enc_clause.
  rewrite (dec_opt_enc 20 (To c)) by (try exact Hto; lia).
  rewrite dec_big_enc by exact Hval.
  destruct c; reflexivity.
Qed.

Lemma dec_all_clauses cs :
  Forall valid_clause cs ->
  Codec.dec_all Codec.dec_clause (map Codec.enc_clause cs) = Some cs.
Proof.
  induction 1 as [| c cs Hc _ IH]; [reflexivity |].
  cbn [map Codec.dec_all]. rewrite dec_clause_enc by exact Hc.
  rewrite IH. reflexivity.
Qed.

Lemma dec_all_items (xs : list RLP.item) : Codec.dec_all Some xs = Some xs.
Proof.
  induction xs as [| x xs IH]; [reflexivity |].
  cbn [Codec.dec_all]. rewrite IH. reflexivity.
Qed.

Lemma dec_body_item b :
  valid_body b -> Codec.dec_body (Codec.body_item b) = Some b.
Proof.
  intros (Hn & Hbr & Hg & Hcl & Hdep & _).
  unfold Codec.body_item, Codec.signing_fields, Codec.dec_body.
  cbn [app].
  rewrite !dec_u8_enc, !dec_u64_enc by assumption.
  unfold Codec.dec_list. rewrite dec_all_clauses by exact Hcl.
  rewrite (dec_opt_enc 32 (DependsOn b)) by (try exact Hdep; lia).
  rewrite dec_all_items. cbn [Codec.dec_bytes].
  destruct b; reflexivity.
Qed.

(** C6. For every valid body [b], decoding the encoding of [b] yields
    [b]: the reserved fields come back unchanged and a nil [DependsOn]
    stays nil; and [DecodeRLP] on the bytes written by [EncodeRLP]
    succeeds and sets the receiver to that body with an unset cache. *)
Theorem decode_encode_body (b : body) :
  valid_body b ->
  Codec.decode_body (Codec.encode_body b) = Some b /\
  (forall b', Codec.decode_body (Codec.encode_body b) = Some b' ->
     Reserved b' = Reserved b /\
     (DependsOn b = None -> DependsOn b' = None)) /\
  (forall t w, tx_body t = b ->
     DecodeRLP (EncodeRLP t) w
     = Done (None, mkWorld (mkTx b empty_cache) (signerCache w))).
Proof.
  intros Hv.
  assert (Hrt : Codec.decode_body (Codec.encode_body b) = Some b).
  { unfold Codec.decode_body, Codec.encode_body.
    rewrite decode_bytes_encode by apply Hv.
    apply dec_body_item, Hv. }
  split; [exact Hrt | split].
  - intros b' Hb'. rewrite Hrt in Hb'. injection Hb' as <-.
    split; [reflexivity | intros H; exact H].
  - intros t w <-. unfold DecodeRLP, EncodeRLP. rewrite Hrt. reflexivity.
Qed.

(* ==================================================================== *)
(** * Further properties of the transaction methods *)
(* ==================================================================== *)

(** ** Memoisation, without any assumption on the caches *)

(** What [SigningHash] changes: only its own cache field, which then
    holds the returned hash. *)
Lemma SigningHash_effect w h w' :
  SigningHash w = Done (h, w') ->
  tx_body (self w') = tx_body (self w) /\
  signerCache w' = signerCache w /\
  c_signer (tx_cache (self w')) = c_signer (tx_cache (self w)) /\
  c_id (tx_cache (self w')) = c_id (tx_cache (self w)) /\
  c_signingHash (tx_cache (self w')) = Some h.
Proof.
  destruct w as [[b [sh sg i sz]] sc]. unfold SigningHash. run.
  destruct sh as [cached |]; run; intros [= <- <-]; proj; repeat split.
Qed.

Lemma LRU_get_miss k c c' : LRU.get k c = (None, c') -> c' = c /\ LRU.find k c = None.
Proof.
  unfold LRU.get. destruct (LRU.find k c); intros [= <-]; split; reflexivity.
Qed.

Lemma LRU_get_hit k c v c' :
  LRU.get k c = (Some v, c') -> LRU.find k c' = Some v.
Proof.
  unfold LRU.get. destruct (LRU.find k c) as [v' |] eqn:Hfind; intros [= <- <-].
  simpl. rewrite bytes_eqb_refl. reflexivity.
Qed.

(** X1. A failed [Signer] call is memoised nowhere: it returns the zero
    address with the recovery error, the receiver's signer field stays
    unset, its id field and body are as before, and the signer cache
    holds what it held. *)
Theorem Signer_failure_not_cached (w : world) a e w' :
  Signer w = Done ((a, Some e), w') ->
  a = zeroAddress /\ e = ErrSigRecovery /\
  c_signer (tx_cache (self w')) = None /\
  signerCache w' = signerCache w /\
  c_id (tx_cache (self w')) = c_id (tx_cache (self w)) /\
  tx_body (self w') = tx_body (self w).
Proof.
  destruct w as [[b [sh sg i sz]] sc]. unfold Signer. run.
  destruct sg as [cached |]; run; [intros [=] |].
  destruct (LRU.get _ sc) as [[v |] c'] eqn:Hget; run; [intros [=] |].
  apply LRU_get_miss in Hget as [-> _].
  destruct (SigningHash _) as [[h w1] | p] eqn:Hsh; [| intros [=]].
  apply SigningHash_effect in Hsh as (Hb & Hsc & Hsg & Hid & _).
  proj in Hb Hsc Hsg Hid.
  destruct (recoverAddress h (Signature b)); run; intros [= <- <- <-].
  proj. repeat split; assumption.
Qed.

(** What a successful [Signer] call leaves behind. *)
Lemma Signer_success_effect (w : world) s w' :
  Signer w = Done ((s, None), w') ->
  c_signer (tx_cache (self w')) = Some s /\
  tx_body (self w') = tx_body (self w) /\
  (c_signer (tx_cache (self w)) = None ->
   LRU.find (fingerprintOf (tx_body (self w))) (signerCache w') = Some s).
Proof.
  destruct w as [[b [sh sg i sz]] sc]. unfold Signer. run.
  destruct sg as [cached |]; run.
  { intros [= <- <-]. proj. repeat split. intros [=]. }
  fold (fingerprintOf b).
  destruct (LRU.get _ sc) as [[v |] c'] eqn:Hget; run.
  { intros [= <- <-]. proj. apply LRU_get_hit in Hget. repeat split.
    intros _. exact Hget. }
  apply LRU_get_miss in Hget as [-> _].
  destruct (SigningHash _) as [[h w1] | p] eqn:Hsh; [| intros [=]].
  apply SigningHash_effect in Hsh as (Hb & Hsc & _).
  proj in Hb Hsc.
  destruct (recoverAddress h (Signature b)) as [signer |]; run; [| intros [=]].
  intros [= <- <-]. proj.
  split; [reflexivity | split; [exact Hb |]].
  intros _. apply LRU_find_add.
Qed.

(** X2. A successful [Signer] call is memoised: the receiver's signer
    field holds the address, a second call returns it and changes
    nothing, and, when the field was unset before the call, the signer
    cache maps the transaction's fingerprint to the address. *)
Theorem Signer_success_cached (w : world) s w' :
  Signer w = Done ((s, None), w') ->
  c_signer (tx_cache (self w')) = Some s /\
  Signer w' = Done ((s, None), w') /\
  tx_body (self w') = tx_body (self w) /\
  (c_signer (tx_cache (self w)) = None ->
   LRU.find (fingerprintOf (tx_body (self w))) (signerCache w') = Some s).
Proof.
  intros Hrun.
  destruct (Signer_success_effect w s w' Hrun) as (Hsg & Hb & Hlru).
  split; [exact Hsg | split; [| split; [exact Hb | exact Hlru]]].
  destruct w' as [[b' [sh' sg' i' sz']] sc']. proj in Hsg. subst sg'.
  unfold Signer. run. reflexivity.
Qed.

(** X3. [ID] and [SigningHash] are stable: whatever the caches hold, a
    call leaves its result in the cache, and calling again returns the
    same value and changes nothing. *)
Theorem ID_and_SigningHash_stable (w : world) :
  (forall i w', ID w = Done (i, w') ->
     c_id (tx_cache (self w')) = Some i /\ ID w' = Done (i, w')) /\
  (forall h w', SigningHash w = Done (h, w') ->
     c_signingHash (tx_cache (self w')) = Some h /\
     SigningHash w' = Done (h, w')).
Proof.
  split.
  - intros i w' Hrun.
    assert (Hc : c_id (tx_cache (self w')) = Some i).
    { revert Hrun. unfold ID. run.
      destruct (c_id (tx_cache (self w))) as [cached |] eqn:Hcached; run.
      { intros [= <- <-]. exact Hcached. }
      destruct (Signer w) as [[[a e] w1] | p]; [| intros [=]].
      cbn [fst snd]. destruct e; run.
      { intros [= <- <-]. reflexivity. }
      destruct (makeID a w1) as [[i' w2] | p]; [| intros [=]].
      intros [= <- <-]. reflexivity. }
    split; [exact Hc |]. unfold ID. run. rewrite Hc. reflexivity.
  - intros h w' Hrun.
    apply SigningHash_effect in Hrun as (_ & _ & _ & _ & Hc).
    split; [exact Hc |]. unfold SigningHash. run. rewrite Hc. reflexivity.
Qed.

(** ** Under the cache invariant *)

(** X4. Cold or warm, the answer is the same: in two states that keep the
    cache invariant and hold the same body, whatever is memoised in
    either, [Signer], [ID] and [SigningHash] return the same results. *)
Theorem identity_cold_warm (w1 w2 : world) :
  world_ok w1 -> world_ok w2 ->
  tx_body (self w1) = tx_body (self w2) ->
  result_of (Signer w1) = result_of (Signer w2) /\
  result_of (ID w1) = result_of (ID w2) /\
  result_of (SigningHash w1) = result_of (SigningHash w2).
Proof.
  intros Hok1 Hok2 Hb.
  destruct (Signer_spec w1 Hok1) as (? & -> & _).
  destruct (Signer_spec w2 Hok2) as (? & -> & _).
  destruct (ID_spec w1 Hok1) as (? & -> & _).
  destruct (ID_spec w2 Hok2) as (? & -> & _).
  destruct (SigningHash_spec w1 Hok1) as (? & -> & _).
  destruct (SigningHash_spec w2 Hok2) as (? & -> & _).
  rewrite Hb. repeat split.
Qed.

(** X5. [ProvedWork], [EvaluateWork] and [OverallGasPrice] keep the cache
    invariant and never change the body; [EvaluateWork] moreover leaves
    the signer cache and the memoised signer and id as they were. *)
Theorem work_methods_keep_invariant (w : world) :
  world_ok w ->
  (forall work w', ProvedWork w = Done (work, w') ->
     world_ok w' /\ tx_body (self w') = tx_body (self w)) /\
  (forall s work w', EvaluateWork s w = Done (work, w') ->
     world_ok w' /\ tx_body (self w') = tx_body (self w) /\
     signerCache w' = signerCache w /\
     c_signer (tx_cache (self w')) = c_signer (tx_cache (self w)) /\
     c_id (tx_cache (self w')) = c_id (tx_cache (self w))) /\
  (forall baseGasPrice headBlockNum getBlockID price w',
     OverallGasPrice baseGasPrice headBlockNum getBlockID w
     = Done (price, w') ->
     world_ok w' /\ tx_body (self w') = tx_body (self w)).
Proof.
  intros Hok.
  assert (Hpw : forall work w', ProvedWork w = Done (work, w') ->
            world_ok w' /\ tx_body (self w') = tx_body (self w)).
  { intros work w'. unfold ProvedWork. run.
    destruct (Signer_spec w Hok) as (w1 & -> & Hok1 & Hb1 & _).
    destruct (snd (signerResult (tx_body (self w)))).
    - intros [= <- <-]. split; assumption.
    - destruct (ID_spec w1 Hok1) as (w2 & -> & Hok2 & Hb2 & _).
      destruct (idToWork _); run; [| intros [=]].
      intros [= <- <-]. split; [exact Hok2 | congruence]. }
  split; [exact Hpw | split].
  - intros s work w'. unfold EvaluateWork. run.
    destruct (makeID_spec w s Hok) as (w1 & -> & Hok1 & Hrest).
    destruct (idToWork _); run; [| intros [=]].
    intros [= <- <-]. split; [exact Hok1 | exact Hrest].
  - intros baseGasPrice headBlockNum getBlockID price w'.
    unfold OverallGasPrice.
    destruct (MaxTxWorkDelay <? _).
    + run. intros [= <- <-]. split; [exact Hok | reflexivity].
    + run. destruct (ProvedWork w) as [[work w1] | p] eqn:Hwork; [| intros [=]].
      destruct (Hpw work w1 eq_refl) as [Hok1 Hb1].
      destruct (bigDiv _ _); run; [| intros [=]].
      intros [= <- <-]. split; assumption.
Qed.

(** X6. [EvaluateWork] needs no signature: on receivers that keep the
    cache invariant and whose bodies differ at most in the signature, it
    returns the same work for the same candidate signer. *)
Theorem EvaluateWork_ignores_signature (w1 w2 : world) (sig : list byte)
        (signer : Address) :
  world_ok w1 -> world_ok w2 ->
  tx_body (self w2) = set_Signature (tx_body (self w1)) sig ->
  result_of (EvaluateWork signer w1) = result_of (EvaluateWork signer w2).
Proof.
  intros Hok1 Hok2 Hb. unfold EvaluateWork. run.
  destruct (makeID_spec w1 signer Hok1) as (? & -> & _).
  destruct (makeID_spec w2 signer Hok2) as (? & -> & _).
  rewrite Hb.
  change (signingHashOf (set_Signature (tx_body (self w1)) sig))
    with (signingHashOf (tx_body (self w1))).
  destruct (idToWork _); reflexivity.
Qed.

(** ** Gas price *)

(** X7. For a non-negative base price the gas price lies between the
    base price and twice the base price; coefficient 0 gives the base
    price, coefficient 255 twice the base price, and a larger coefficient
    never gives a smaller price. *)
Theorem GasPrice_bounds (t : Transaction) (baseGasPrice : Z) :
  0 <= baseGasPrice ->
  baseGasPrice <= GasPrice t baseGasPrice <= 2 * baseGasPrice /\
  (u8 (GasPriceCoef (tx_body t)) = 0 ->
   GasPrice t baseGasPrice = baseGasPrice) /\
  (u8 (GasPriceCoef (tx_body t)) = 255 ->
   GasPrice t baseGasPrice = 2 * baseGasPrice) /\
  (forall t', u8 (GasPriceCoef (tx_body t)) <= u8 (GasPriceCoef (tx_body t')) ->
     GasPrice t baseGasPrice <= GasPrice t' baseGasPrice).
Proof.
  intros Hb.
  assert (Hform : forall t0, GasPrice t0 baseGasPrice
            = u8 (GasPriceCoef (tx_body t0)) * baseGasPrice / 255 + baseGasPrice).
  { intros t0. unfold GasPrice, MaxUint8. rewrite euclid_div_pos by lia.
    reflexivity. }
  pose proof (u8_range (GasPriceCoef (tx_body t))) as Hc.
  rewrite Hform.
  split; [| split; [| split]].
  - assert (0 <= u8 (GasPriceCoef (tx_body t)) * baseGasPrice / 255)
      by (apply Z.div_pos; nia).
    assert (u8 (GasPriceCoef (tx_body t)) * baseGasPrice / 255 <= baseGasPrice)
      by (apply Z.div_le_upper_bound; nia).
    lia.
  - intros ->. rewrite Z.mul_0_l, Z.div_0_l by lia. lia.
  - intros ->. rewrite Z.mul_comm, Z.div_mul by lia. lia.
  - intros t' Hle. rewrite Hform.
    pose proof (u8_range (GasPriceCoef (tx_body t'))) as Hc'.
    assert (u8 (GasPriceCoef (tx_body t)) * baseGasPrice / 255
            <= u8 (GasPriceCoef (tx_body t')) * baseGasPrice / 255)
      by (apply Z.div_le_mono; nia).
    lia.
Qed.

(** X8. The work term is bounded by the base price: for a non-negative
    base price, a positive declared gas and a [workToGas] that returns
    unsigned values, a price returned by [OverallGasPrice] lies between
    the gas price and the gas price plus the base price, hence is at
    most three times the base price. *)
Theorem OverallGasPrice_bounds (w : world) (baseGasPrice headBlockNum : Z)
        (getBlockID : Z -> Bytes32) price w' :
  0 <= baseGasPrice ->
  0 < Gas (tx_body (self w)) ->
  (forall work, 0 <= workToGas work headBlockNum) ->
  OverallGasPrice baseGasPrice headBlockNum getBlockID w = Done (price, w') ->
  GasPrice (self w) baseGasPrice <= price
    <= GasPrice (self w) baseGasPrice + baseGasPrice /\
  price <= 3 * baseGasPrice.
Proof.
  intros Hb Hgas Hwg Hrun.
  assert (Hgp : GasPrice (self w) baseGasPrice <= 2 * baseGasPrice).
  { unfold GasPrice, MaxUint8. rewrite euclid_div_pos by lia.
    pose proof (u8_range (GasPriceCoef (tx_body (self w)))).
    assert (u8 (GasPriceCoef (tx_body (self w))) * baseGasPrice / 255
            <= baseGasPrice) by (apply Z.div_le_upper_bound; nia).
    lia. }
  assert (Hcore : GasPrice (self w) baseGasPrice <= price
                  <= GasPrice (self w) baseGasPrice + baseGasPrice); [| lia].
  destruct (Z.lt_ge_cases MaxTxWorkDelay
              (measureDelay (self w) headBlockNum getBlockID)) as [Hlate | Hin].
  - rewrite (OverallGasPrice_beyond_delay w _ _ _ Hlate) in Hrun.
    injection Hrun as <- _. lia.
  - destruct (ProvedWork_outcome w) as [(work & w1 & Hwork) | Hpanic].
    + rewrite (OverallGasPrice_within_delay w w1 _ _ work _ Hin Hwork) in Hrun.
      unfold bigDiv in Hrun.
      destruct (Z.eqb_spec (Gas (tx_body (self w))) 0) as [H0 | _]; [lia |].
      cbn [outcome_map] in Hrun. injection Hrun as <- _.
      rewrite euclid_div_pos by exact Hgas.
      set (g := Gas (tx_body (self w))) in *.
      set (wg := Z.min (workToGas work headBlockNum) g).
      assert (Hwgr : 0 <= wg <= g) by (unfold wg; specialize (Hwg work); lia).
      assert (0 <= wg * baseGasPrice / g) by (apply Z.div_pos; nia).
      assert (wg * baseGasPrice / g <= baseGasPrice)
        by (apply Z.div_le_upper_bound; nia).
      lia.
    + rewrite (OverallGasPrice_work_panics w _ _ _ _ Hin Hpanic) in Hrun.
      discriminate Hrun.
Qed.

(** ** Delay *)

(** X9. A measured delay is either the sentinel [math.MaxUint32] or a
    real gap: at least 1, at most [MaxTxWorkDelay], equal to the head
    number minus the referenced number, with the referenced block on the
    chain.  So, for [MaxTxWorkDelay] below the sentinel, the delay exceeds
    [MaxTxWorkDelay] exactly when it is the sentinel. *)
Theorem measureDelay_range (t : Transaction) (headBlockNum : Z)
        (getBlockID : Z -> Bytes32) :
  is_u32 headBlockNum ->
  let ref := Transaction_BlockRef t in
  let refNumber := BlockRef_Number ref in
  let d := measureDelay t headBlockNum getBlockID in
  (d = MaxUint32 \/
   (1 <= d <= MaxTxWorkDelay /\ d = headBlockNum - refNumber /\
    HasPrefix (getBlockID refNumber) ref = true)) /\
  (MaxTxWorkDelay < MaxUint32 ->
   (MaxTxWorkDelay < d <-> d = MaxUint32)).
Proof.
  intros Hh ref refNumber d.
  pose proof (BlockRef_Number_u32 t) as Hr. fold ref refNumber in Hr.
  unfold is_u32, MaxUint32 in Hh, Hr.
  assert (Hcases : d = MaxUint32 \/
            (1 <= d <= MaxTxWorkDelay /\ d = headBlockNum - refNumber /\
             HasPrefix (getBlockID refNumber) ref = true)).
  { unfold d, measureDelay. fold ref refNumber.
    destruct (Z.leb_spec headBlockNum refNumber) as [Hge | Hlt]; [left; reflexivity |].
    assert (Hw : wrap32 (headBlockNum - refNumber) = headBlockNum - refNumber)
      by (unfold wrap32; apply Z.mod_small; lia).
    rewrite Hw.
    destruct (Z.ltb_spec MaxTxWorkDelay (headBlockNum - refNumber)) as [Hgap | Hgap];
      [left; reflexivity |].
    destruct (HasPrefix (getBlockID refNumber) ref) eqn:Hpre; [| left; reflexivity].
    right. repeat split; lia. }
  split; [exact Hcases |].
  intros Hmax. split.
  - intros Hlate. destruct Hcases as [Hs | (Hrange & _)]; [exact Hs | lia].
  - intros ->. exact Hmax.
Qed.

(** ** Intrinsic gas *)

Lemma exact_sum_perm cs cs' :
  Permutation cs cs' ->
  fold_right (fun c acc => exactClauseGas c + acc) 0 cs
  = fold_right (fun c acc => exactClauseGas c + acc) 0 cs'.
Proof.
  induction 1 as [| c l l' _ IH | c1 c2 l | l1 l2 l3 _ IH1 _ IH2];
    cbn [fold_right]; lia.
Qed.

Lemma counts_perm data data' :
  Permutation data data' ->
  zeroCount data = zeroCount data' /\ nonZeroCount data = nonZeroCount data'.
Proof.
  induction 1 as [| b l l' _ [IHz IHn] | b1 b2 l | l1 l2 l3 _ [IHz1 IHn1] _ [IHz2 IHn2]];
    cbn [zeroCount nonZeroCount]; split; try lia; congruence.
Qed.

(** X10. Intrinsic gas does not depend on the order of the clauses nor,
    within a clause, on the order of the data bytes: reordering changes
    neither the value nor whether the computation runs out of gas. *)
Theorem IntrinsicGas_order_independent :
  gas_constants_ok ->
  (forall t t',
     Forall data_len_ok (Clauses (tx_body t)) ->
     Permutation (Clauses (tx_body t)) (Clauses (tx_body t')) ->
     IntrinsicGas t = IntrinsicGas t') /\
  (forall data data',
     Z.of_nat (length data) <= MaxUint64 ->
     Permutation data data' ->
     dataGas data = dataGas data').
Proof.
  intros Hok. split.
  - intros t t' Hlen Hperm.
    assert (Hlen' : Forall data_len_ok (Clauses (tx_body t')))
      by (eapply Permutation_Forall; eassumption).
    unfold IntrinsicGas.
    destruct (Clauses (tx_body t)) as [| c cs] eqn:Hcs.
    + apply Permutation_nil in Hperm. rewrite Hperm. reflexivity.
    + destruct (Clauses (tx_body t')) as [| c' cs'] eqn:Hcs'.
      * symmetry in Hperm. apply Permutation_nil in Hperm. discriminate Hperm.
      * rewrite !intrinsicLoop_spec by (try assumption; apply Hok).
        cbv zeta. rewrite (exact_sum_perm _ _ Hperm). reflexivity.
  - intros data data' Hlen Hperm.
    assert (Hlen' : Z.of_nat (length data') <= MaxUint64)
      by (rewrite <- (Permutation_length Hperm); exact Hlen).
    rewrite !dataGas_spec by assumption. cbv zeta.
    destruct (counts_perm _ _ Hperm) as [-> ->]. reflexivity.
Qed.

Lemma exact_sum_nonneg cs :
  gas_constants_ok ->
  0 <= fold_right (fun c acc => exactClauseGas c + acc) 0 cs.
Proof.
  intros Hok. induction cs as [| c cs IH]; cbn [fold_right]; [lia |].
  pose proof (exactClauseGas_nonneg c Hok). lia.
Qed.

Lemma exact_sum_app cs c :
  fold_right (fun c acc => exactClauseGas c + acc) 0 (cs ++ [c])
  = fold_right (fun c acc => exactClauseGas c + acc) 0 cs + exactClauseGas c.
Proof.
  induction cs as [| c0 cs IH]; cbn [fold_right app]; lia.
Qed.

(** X11. [IntrinsicGas] returns either [(0, ErrOutOfGas)] or a value
    without error that is at least [TxGas] and fits a [uint64]; no other
    error and no value beside an error.  And a further clause never
    lowers it: if the gas of the clauses followed by one more clause is
    [g'], the gas of the clauses alone is some [g <= g'], the difference
    being the gas of the added clause. *)
Theorem IntrinsicGas_result_shape :
  gas_constants_ok ->
  forall t, Forall data_len_ok (Clauses (tx_body t)) ->
  (IntrinsicGas t = (0, Some ErrOutOfGas) \/
   exists g, IntrinsicGas t = (g, None) /\ TxGas <= g <= MaxUint64) /\
  (forall t' c g',
     Clauses (tx_body t) <> [] ->
     Clauses (tx_body t') = Clauses (tx_body t) ++ [c] ->
     data_len_ok c ->
     IntrinsicGas t' = (g', None) ->
     exists g, IntrinsicGas t = (g, None) /\
               g' = g + exactClauseGas c /\ g <= g').
Proof.
  intros Hok t Hlen.
  pose proof Hok as (HT & HC & _ & _ & _ & Hsum).
  unfold is_u64 in HT, HC.
  split.
  - unfold IntrinsicGas.
    destruct (Clauses (tx_body t)) as [| c cs] eqn:Hcs.
    + right. exists (TxGas + ClauseGas). unfold wrap64, MaxUint64 in *.
      rewrite Z.mod_small by lia. split; [reflexivity | lia].
    + rewrite intrinsicLoop_spec by (try assumption; apply Hok). cbv zeta.
      pose proof (exact_sum_nonneg (c :: cs) Hok) as Hnn.
      destruct (Z.leb_spec (TxGas + fold_right (fun c acc => exactClauseGas c + acc)
                                               0 (c :: cs)) MaxUint64) as [Hfit | Hover].
      * right. eexists. split; [reflexivity | lia].
      * left. reflexivity.
  - intros t' c g' Hne Hcs' Hc Hrun.
    assert (Hlen' : Forall data_len_ok (Clauses (tx_body t')))
      by (rewrite Hcs'; apply Forall_app; split; [exact Hlen | repeat constructor; exact Hc]).
    revert Hrun. unfold IntrinsicGas. rewrite Hcs'.
    destruct (Clauses (tx_body t)) as [| c0 cs] eqn:Hcs; [congruence |].
    cbn [app].
    rewrite (intrinsicLoop_spec (c0 :: cs ++ [c])) by
      (try apply Hok; try exact HT; rewrite Hcs' in Hlen'; exact Hlen').
    rewrite (intrinsicLoop_spec (c0 :: cs)) by (try assumption; apply Hok).
    cbv zeta.
    change (c0 :: cs ++ [c]) with ((c0 :: cs) ++ [c]).
    rewrite exact_sum_app.
    pose proof (exact_sum_nonneg (c0 :: cs) Hok) as Hnn.
    pose proof (exactClauseGas_nonneg c Hok) as Hcn.
    set (sum := fold_right (fun c acc => exactClauseGas c + acc) 0 (c0 :: cs)) in *.
    destruct (Z.leb_spec (TxGas + (sum + exactClauseGas c)) MaxUint64) as [Hfit | Hover];
      [| intros [=]].
    intros [= <-].
    assert (Hfit' : (TxGas + sum <=? MaxUint64) = true) by (apply Z.leb_le; lia).
    rewrite Hfit'. eexists. split; [reflexivity | lia].
Qed.

(** X12. The default cost: a transaction without clauses is charged
    exactly like a transaction with a single call clause ([To] set) that
    carries no data. *)
Theorem IntrinsicGas_no_clause_as_plain_call (t t' : Transaction) (c : Clause)
        (a : Address) :
  gas_constants_ok ->
  Clauses (tx_body t) = [] ->
  Clauses (tx_body t') = [c] -> To c = Some a -> Data c = [] ->
  IntrinsicGas t = IntrinsicGas t' /\
  IntrinsicGas t' = (TxGas + ClauseGas, None).
Proof.
  intros Hok Hnil Hone Hto Hdata.
  pose proof Hok as (HT & HC & _ & _ & _ & Hsum).
  assert (Hc : data_len_ok c)
    by (unfold data_len_ok; rewrite Hdata; cbn; unfold MaxUint64; lia).
  assert (Ht' : IntrinsicGas t' = (TxGas + ClauseGas, None)).
  { unfold IntrinsicGas. rewrite Hone.
    rewrite intrinsicLoop_spec by (try assumption; repeat constructor; exact Hc).
    cbv zeta. cbn [fold_right]. unfold exactClauseGas. rewrite Hto, Hdata.
    cbn [zeroCount nonZeroCount].
    replace (TxGas + (0 * TxDataZeroGas + 0 * TxDataNonZeroGas + ClauseGas + 0))
      with (TxGas + ClauseGas) by lia.
    apply Z.leb_le in Hsum. rewrite Hsum. reflexivity. }
  split; [| exact Ht'].
  rewrite Ht'. unfold IntrinsicGas. rewrite Hnil.
  unfold is_u64, wrap64, MaxUint64 in *. rewrite Z.mod_small by lia. reflexivity.
Qed.

(** ** Work *)

Lemma idToWork_range id v :
  length id = 32%nat -> idToWork id = Done v -> 1 <= v <= MaxBig256.
Proof.
  intros Hlen Hrun.
  pose proof (be_to_Z_range id) as Hr. rewrite Hlen in Hr.
  change (256 ^ Z.of_nat 32) with (MaxBig256 + 1) in Hr.
  destruct (idToWork_cases id) as [[_ Hp] | [Hpos Hd]]; [congruence |].
  rewrite Hd in Hrun. injection Hrun as <-.
  assert (0 < MaxBig256) by reflexivity.
  split.
  - apply Z.div_le_lower_bound; lia.
  - apply Z.div_le_upper_bound; nia.
Qed.

(** X13. The work of an id: for a 32-byte id that is not zero it lies
    between 1 and [MaxBig256]; a numerically smaller id never has less
    work; and the invalid-id sentinel has work 1, which is not the 0 that
    [ProvedWork] returns without a signer. *)
Theorem idToWork_bounds :
  (forall id v, length id = 32%nat -> idToWork id = Done v ->
     1 <= v <= MaxBig256) /\
  (forall id1 id2 v1 v2,
     idToWork id1 = Done v1 -> idToWork id2 = Done v2 ->
     be_to_Z id1 <= be_to_Z id2 -> v2 <= v1) /\
  idToWork invalidTxID = Done 1.
Proof.
  split; [| split].
  - apply idToWork_range.
  - intros id1 id2 v1 v2 H1 H2 Hle.
    destruct (idToWork_cases id1) as [[_ Hp] | [Hpos1 Hd1]]; [congruence |].
    destruct (idToWork_cases id2) as [[_ Hp] | [Hpos2 Hd2]]; [congruence |].
    rewrite Hd1 in H1. rewrite Hd2 in H2.
    injection H1 as <-. injection H2 as <-.
    apply Z.div_le_compat_l; [unfold MaxBig256; lia | lia].
  - reflexivity.
Qed.

(** ** Block reference *)

(** X14. [BlockRef()] is the 8-byte big-endian image of the [BlockRef]
    field: read back as an integer the bytes give the field, and the
    block number in its first four bytes is the upper half of the
    field. *)
Theorem BlockRef_bytes (t : Transaction) :
  is_u64 (BlockRef (tx_body t)) ->
  length (Transaction_BlockRef t) = 8%nat /\
  be_to_Z (Transaction_BlockRef t) = BlockRef (tx_body t) /\
  BlockRef_Number (Transaction_BlockRef t) = BlockRef (tx_body t) / 2 ^ 32.
Proof.
  intros Hv. split; [reflexivity | split; [| apply BlockRef_Number_high, Hv]].
  unfold Transaction_BlockRef. set (v := BlockRef (tx_body t)) in *.
  unfold is_u64, MaxUint64 in Hv. unfold PutUint64, be_to_Z. cbn [fold_left].
  rewrite !u8_byte_of_Z, !Z.shiftr_div_pow2 by lia.
  set (d1 := v / 256). set (d2 := d1 / 256). set (d3 := d2 / 256).
  set (d4 := d3 / 256). set (d5 := d4 / 256). set (d6 := d5 / 256).
  set (d7 := d6 / 256).
  assert (E1 : v / 2 ^ 8 = d1) by reflexivity.
  assert (E2 : v / 2 ^ 16 = d2)
    by (change (2 ^ 16) with (256 * 256); unfold d2, d1;
        rewrite Z.div_div by lia; reflexivity).
  assert (E3 : v / 2 ^ 24 = d3)
    by (change (2 ^ 24) with (2 ^ 16 * 256); rewrite <- Z.div_div, E2 by lia;
        reflexivity).
  assert (E4 : v / 2 ^ 32 = d4)
    by (change (2 ^ 32) with (2 ^ 24 * 256); rewrite <- Z.div_div, E3 by lia;
        reflexivity).
  assert (E5 : v / 2 ^ 40 = d5)
    by (change (2 ^ 40) with (2 ^ 32 * 256); rewrite <- Z.div_div, E4 by lia;
        reflexivity).
  assert (E6 : v / 2 ^ 48 = d6)
    by (change (2 ^ 48) with (2 ^ 40 * 256); rewrite <- Z.div_div, E5 by lia;
        reflexivity).
  assert (E7 : v / 2 ^ 56 = d7)
    by (change (2 ^ 56) with (2 ^ 48 * 256); rewrite <- Z.div_div, E6 by lia;
        reflexivity).
  rewrite E1, E2, E3, E4, E5, E6, E7.
  pose proof (Z.div_mod v 256 ltac:(lia)) as M0. fold d1 in M0.
  pose proof (Z.div_mod d1 256 ltac:(lia)) as M1. fold d2 in M1.
  pose proof (Z.div_mod d2 256 ltac:(lia)) as M2. fold d3 in M2.
  pose proof (Z.div_mod d3 256 ltac:(lia)) as M3. fold d4 in M3.
  pose proof (Z.div_mod d4 256 ltac:(lia)) as M4. fold d5 in M4.
  pose proof (Z.div_mod d5 256 ltac:(lia)) as M5. fold d6 in M5.
  pose proof (Z.div_mod d6 256 ltac:(lia)) as M6. fold d7 in M6.
  assert (H7 : d7 mod 256 = d7).
  { apply Z.mod_small. rewrite <- E7. split; [apply Z.div_pos; lia |].
    apply Z.div_lt_upper_bound; lia. }
  rewrite H7. lia.
Qed.

(** ** A signed copy starts with an unset cache *)

(** X15. The transaction returned by [WithSignature] inherits nothing
    memoised by the receiver: whatever the receiver's cache holds (a
    memoised sentinel id, say), [Signer] and [ID] of the new transaction
    are computed from the new body, given that the signer cache holds no
    wrong entry under the new fingerprint. *)
Theorem WithSignature_recomputes (s : heapWorld) (t : loc) (sig : list byte)
        (obj : Transaction) :
  heap s !! t = Some obj ->
  let b' := set_Signature (tx_body obj) sig in
  (forall a, LRU.find (fingerprintOf b') (globalSignerCache s) = Some a ->
             recoverOf b' = Some a) ->
  exists l s',
    WithSignature t sig s = Done (l, s') /\
    heap s' !! l = Some (mkTx b' empty_cache) /\
    heap_result (invoke l Signer s') = Done (signerResult b') /\
    heap_result (invoke l ID s') = Done (idOf b').
Proof.
  intros Hobj b' Hlru.
  assert (Hok : world_ok (mkWorld (mkTx b' empty_cache) (globalSignerCache s))).
  { unfold world_ok. proj. unfold empty_cache. proj.
    split; [intros ? [=] | split; [intros ? [=] | split; [exact Hlru | intros ? [=]]]]. }
  eexists. eexists.
  split; [unfold WithSignature; rewrite Hobj; reflexivity |].
  cbn [heap globalSignerCache]. fold b'.
  split; [apply lookup_insert_eq |].
  destruct (Signer_spec _ Hok) as (w1 & Hsg & _).
  destruct (ID_spec _ Hok) as (w2 & Hid & _).
  proj in Hsg Hid.
  unfold invoke. cbn [heap globalSignerCache].
  rewrite lookup_insert_eq, Hsg, Hid. split; reflexivity.
Qed.

(** ** More on the codec *)

Lemma decode_encode_valid b :
  valid_body b -> Codec.decode_body (Codec.encode_body b) = Some b.
Proof.
  intros Hv. unfold Codec.decode_body, Codec.encode_body.
  rewrite decode_bytes_encode by apply Hv. apply dec_body_item, Hv.
Qed.

(** X16. The encoding is injective on valid bodies: two valid bodies
    with the same encoding are the same body.  In particular the full
    encoding, which is hashed into the key of the signer cache, changes
    with the signature, unlike the signing payload. *)
Theorem encode_body_injective (b1 b2 : body) :
  valid_body b1 -> valid_body b2 ->
  (Codec.encode_body b1 = Codec.encode_body b2 -> b1 = b2) /\
  (Signature b1 <> Signature b2 ->
   Codec.encode_body b1 <> Codec.encode_body b2) /\
  (b2 = set_Signature b1 (Signature b2) ->
   RLP.encode (Codec.signing_item b1) = RLP.encode (Codec.signing_item b2)).
Proof.
  intros Hv1 Hv2.
  assert (Hinj : Codec.encode_body b1 = Codec.encode_body b2 -> b1 = b2).
  { intros Henc.
    pose proof (decode_encode_valid b1 Hv1) as H1.
    rewrite Henc, (decode_encode_valid b2 Hv2) in H1. congruence. }
  split; [exact Hinj | split].
  - intros Hsig Henc. apply Hsig. rewrite (Hinj Henc). reflexivity.
  - intros ->. reflexivity.
Qed.

(** X17. [DecodeRLP] discards what the receiver had memoised: decoding
    the encoding of a valid body succeeds whatever body and cache the
    receiver held, leaves an unset cache and the signer cache as it was,
    and [Signer] and [ID] are then computed from the decoded body, given
    that the signer cache holds no wrong entry under its fingerprint. *)
Theorem DecodeRLP_resets_cache (b : body) (w : world) :
  valid_body b ->
  (forall a, LRU.find (fingerprintOf b) (signerCache w) = Some a ->
             recoverOf b = Some a) ->
  exists w',
    DecodeRLP (Codec.encode_body b) w = Done (None, w') /\
    self w' = mkTx b empty_cache /\
    signerCache w' = signerCache w /\
    result_of (Signer w') = Done (signerResult b) /\
    result_of (ID w') = Done (idOf b).
Proof.
  intros Hv Hlru.
  assert (Hok : world_ok (mkWorld (mkTx b empty_cache) (signerCache w))).
  { unfold world_ok. proj. unfold empty_cache. proj.
    split; [intros ? [=] | split; [intros ? [=] | split; [exact Hlru | intros ? [=]]]]. }
  eexists.
  split; [unfold DecodeRLP; rewrite (decode_encode_valid b Hv); reflexivity |].
  split; [reflexivity | split; [reflexivity |]].
  destruct (Signer_spec _ Hok) as (w1 & -> & _).
  destruct (ID_spec _ Hok) as (w2 & -> & _).
  split; reflexivity.
Qed.

(** ** Unsigned transactions *)

(** X18. Without a signer there is no discount at any delay: if [Signer]
    fails, the declared gas is positive and [workToGas] turns zero work
    into zero gas, [OverallGasPrice] is the plain [GasPrice]. *)
Theorem OverallGasPrice_unsigned (w : world) (baseGasPrice headBlockNum : Z)
        (getBlockID : Z -> Bytes32) a e w1 :
  Signer w = Done ((a, Some e), w1) ->
  0 < Gas (tx_body (self w)) ->
  workToGas 0 headBlockNum = 0 ->
  result_of (OverallGasPrice baseGasPrice headBlockNum getBlockID w)
  = Done (GasPrice (self w) baseGasPrice).
Proof.
  intros Hfail Hgas Hzero.
  destruct (Z.lt_ge_cases MaxTxWorkDelay
              (measureDelay (self w) headBlockNum getBlockID)) as [Hlate | Hin].
  - rewrite (OverallGasPrice_beyond_delay w _ _ _ Hlate). reflexivity.
  - rewrite (OverallGasPrice_within_delay w w1 _ _ 0 _ Hin
               (ProvedWork_unsigned w a e w1 Hfail)).
    rewrite Hzero, Z.min_l by lia. rewrite Z.mul_0_l.
    unfold bigDiv. destruct (Z.eqb_spec (Gas (tx_body (self w))) 0); [lia |].
    rewrite euclid_div_pos by exact Hgas. rewrite Z.div_0_l by lia.
    cbn. rewrite Z.add_0_r. reflexivity.
Qed.

(** X19. Zero proved work identifies the transactions without signer:
    under the cache invariant and for a hash with 32-byte digests,
    [ProvedWork] returns 0 exactly when [Signer] fails; with a signer a
    returned work is at least 1 and at most [MaxBig256]. *)
Theorem ProvedWork_zero_iff_unsigned (w : world) :
  world_ok w ->
  (forall bs, length (keccak256 bs) = 32%nat) ->
  (result_of (ProvedWork w) = Done 0 <->
   exists a e w1, Signer w = Done ((a, Some e), w1)) /\
  (forall s w1 v,
     Signer w = Done ((s, None), w1) ->
     result_of (ProvedWork w) = Done v ->
     1 <= v <= MaxBig256).
Proof.
  intros Hok Hlen.
  destruct (Signer_spec w Hok) as (w1 & Hsg & Hok1 & Hb1 & _).
  assert (Hsigned : forall s, recoverOf (tx_body (self w)) = Some s ->
            forall v, result_of (ProvedWork w) = Done v -> 1 <= v <= MaxBig256).
  { intros s Hrec v. unfold ProvedWork. run. rewrite Hsg.
    unfold signerResult. rewrite Hrec. cbn [fst snd].
    destruct (ID_spec w1 Hok1) as (w2 & -> & _). rewrite Hb1.
    assert (Hid : length (idOf (tx_body (self w))) = 32%nat)
      by (unfold idOf; rewrite Hrec; apply Hlen).
    destruct (idToWork (idOf (tx_body (self w)))) as [v' | p] eqn:Hwork;
      cbn; [| intros [=]].
    intros [= <-]. apply (idToWork_range _ _ Hid Hwork). }
  split.
  - rewrite Hsg. unfold signerResult in *.
    destruct (recoverOf (tx_body (self w))) as [s |] eqn:Hrec.
    + split.
      * intros Hzero. pose proof (Hsigned s eq_refl 0 Hzero). lia.
      * intros (a & e & w1' & [=]).
    + split.
      * intros _. eauto.
      * intros _. rewrite (ProvedWork_unsigned w _ _ w1 Hsg). reflexivity.
  - intros s w1' v Hrun. rewrite Hsg in Hrun. injection Hrun as Hres _.
    unfold signerResult in Hres.
    destruct (recoverOf (tx_body (self w))) as [s' |] eqn:Hrec; [| discriminate].
    apply (Hsigned s' eq_refl).
Qed.

End Tx.

(* ====================================================================== *)
(** * The definitions on sample values *)
(* ====================================================================== *)

(** Known encodings: the empty string, a single small byte, a short
    string, the empty list, a list of two strings, and integers. *)
Example encode_empty_string : RLP.encode (RLP.Str []) = [x80].
Proof. reflexivity. Qed.

Example encode_small_byte : RLP.encode (RLP.Str [x0f]) = [x0f].
Proof. reflexivity. Qed.

Example encode_dog :
  RLP.encode (RLP.Str [x64; x6f; x67]) = [x83; x64; x6f; x67].
Proof. reflexivity. Qed.

Example encode_empty_list : RLP.encode (RLP.Lst []) = [xc0].
Proof. reflexivity. Qed.

Example encode_cat_dog :
  RLP.encode (RLP.Lst [RLP.Str [x63; x61; x74]; RLP.Str [x64; x6f; x67]])
  = [xc8; x83; x63; x61; x74; x83; x64; x6f; x67].
Proof. reflexivity. Qed.

Example encode_1024 : RLP.encode (Codec.enc_uint 1024) = [x82; x04; x00].
Proof. reflexivity. Qed.

Example encode_long_string :
  firstn 3 (RLP.encode (RLP.Str (repeat x61 56))) = [xb8; x38; x61].
Proof. reflexivity. Qed.

Example decode_rejects_non_canonical_byte :
  RLP.decode_bytes [x81; x05] = None.
Proof. reflexivity. Qed.

Example decode_rejects_leading_zero_integer :
  Codec.dec_uint 8 (RLP.Str [x00; x01]) = None.
Proof. reflexivity. Qed.

Example decode_sample_body :
  Codec.decode_body (Codec.encode_body Sample.unsigned) = Some Sample.unsigned.
Proof. vm_compute. reflexivity. Qed.

Example blockRef_number :
  BlockRef_Number (PutUint64 Sample.blockRef) = 5.
Proof. reflexivity. Qed.

Example IntrinsicGas_overflow :
  IntrinsicGas MaxUint64 16000 48000 4 68 (mkTx Sample.only_create empty_cache)
  = (0, Some ErrOutOfGas).
Proof. reflexivity. Qed.

Example dataGas_sample :
  dataGas 4 68 (Data Sample.create) = (3 * 4 + 2 * 68, None).
Proof. reflexivity. Qed.

Import Sample.

Local Ltac zdecide :=
  vm_compute;
  first [reflexivity | discriminate | let H := fresh in intro H; discriminate H].

Lemma sample_constants_ok :
  gas_constants_ok TxGas ClauseGas ClauseGasContractCreation
                   TxDataZeroGas TxDataNonZeroGas.
Proof.
  unfold gas_constants_ok, is_u64, MaxUint64, TxGas, ClauseGas,
    ClauseGasContractCreation, TxDataZeroGas, TxDataNonZeroGas.
  lia.
Defined.

(** C2 on the samples: no clause, one contract creation, two clauses. *)
Lemma IntrinsicGas_witness :
  IntrinsicGas TxGas ClauseGas ClauseGasContractCreation TxDataZeroGas
               TxDataNonZeroGas (mkTx no_clauses empty_cache)
  = (5000 + 16000, None) /\
  IntrinsicGas TxGas ClauseGas ClauseGasContractCreation TxDataZeroGas
               TxDataNonZeroGas (mkTx only_create empty_cache)
  = (5000 + 3 * 4 + 2 * 68 + 48000, None) /\
  IntrinsicGas TxGas ClauseGas ClauseGasContractCreation TxDataZeroGas
               TxDataNonZeroGas (mkTx unsigned empty_cache)
  = (5000 + (3 * 4 + 2 * 68 + 48000) + (1 * 4 + 1 * 68 + 16000), None).
Proof.
  destruct (IntrinsicGas_exact_or_OutOfGas
              TxGas ClauseGas ClauseGasContractCreation TxDataZeroGas
              TxDataNonZeroGas sample_constants_ok) as (H0 & H1 & Hn).
  split; [| split].
  - apply (H0 (mkTx no_clauses empty_cache)). reflexivity.
  - apply (H1 (mkTx only_create empty_cache) create);
      [reflexivity | reflexivity | zdecide].
  - apply (Hn (mkTx unsigned empty_cache)); [discriminate |].
    repeat constructor; zdecide.
Defined.

(** C5 on a sample: coefficient 255 doubles the base price. *)
Lemma GasPrice_witness :
  GasPrice (mkTx only_create empty_cache) 1000
  = 1000 + Z.quot (1000 * 255) 255.
Proof.
  apply (GasPrice_formula (mkTx only_create empty_cache) 1000). zdecide.
Defined.

(** C4 on the sample reference to block 5: a head at or below 5, a head
    beyond the maximal delay, a chain with another block 5, and the
    in-range case. *)
Lemma measureDelay_witness :
  measureDelay MaxTxWorkDelay (mkTx unsigned empty_cache) 5 getBlockID
  = MaxUint32 /\
  measureDelay MaxTxWorkDelay (mkTx unsigned empty_cache) 36 getBlockID
  = MaxUint32 /\
  measureDelay MaxTxWorkDelay (mkTx unsigned empty_cache) 10
               (fun _ => repeat x00 32)
  = MaxUint32 /\
  measureDelay MaxTxWorkDelay (mkTx unsigned empty_cache) 35 getBlockID
  = 35 - 5.
Proof.
  assert (H5 : is_u32 5) by (split; zdecide).
  assert (H36 : is_u32 36) by (split; zdecide).
  assert (H10 : is_u32 10) by (split; zdecide).
  assert (H35 : is_u32 35) by (split; zdecide).
  split; [| split; [| split]].
  - destruct (measureDelay_cases MaxTxWorkDelay (mkTx unsigned empty_cache) 5
                getBlockID H5) as (Hhead & _).
    apply Hhead. zdecide.
  - destruct (measureDelay_cases MaxTxWorkDelay (mkTx unsigned empty_cache) 36
                getBlockID H36) as (_ & Hgap & _).
    apply Hgap. zdecide.
  - destruct (measureDelay_cases MaxTxWorkDelay (mkTx unsigned empty_cache) 10
                (fun _ => repeat x00 32) H10) as (_ & _ & Hprefix & _).
    apply Hprefix. reflexivity.
  - destruct (measureDelay_cases MaxTxWorkDelay (mkTx unsigned empty_cache) 35
                getBlockID H35) as (_ & _ & _ & Hin).
    apply Hin; [zdecide | zdecide | reflexivity].
Defined.

(** C1 on the unsigned sample: [Signer] fails, [ID] returns the sentinel,
    stores it, and returns it again from the cache. *)
Lemma ID_sentinel_witness :
  exists w2,
    ID hash recover (fresh unsigned) = Done (invalidTxID, w2) /\
    c_id (tx_cache (self w2)) = Some invalidTxID /\
    ID hash recover w2 = Done (invalidTxID, w2).
Proof.
  eapply (ID_sentinel_is_memoised hash recover (fresh unsigned)).
  - apply world_ok_fresh.
  - vm_compute. reflexivity.
Defined.

(** C1 as stated fails on the unsigned sample: after [ID] the id cache
    holds the sentinel. *)
Lemma sentinel_is_stored_counterexample :
  ~ sentinel_never_stored hash recover (fresh unsigned).
Proof.
  unfold sentinel_never_stored. intros Hnever.
  edestruct Hnever as [_ Hunset].
  - vm_compute. reflexivity.
  - vm_compute. reflexivity.
  - apply Hunset. vm_compute. reflexivity.
Qed.

(** C8 on the samples: zero work without signer; with a signer the work
    is [MaxBig256 / ID()] and agrees with [EvaluateWork]. *)
Lemma ProvedWork_witness :
  result_of (ProvedWork hash recover (fresh unsigned)) = Done 0 /\
  exists id wi,
    ID hash recover (fresh signed) = Done (id, wi) /\
    result_of (ProvedWork hash recover (fresh signed))
    = Done (MaxBig256 / be_to_Z id) /\
    result_of (ProvedWork hash recover (fresh signed))
    = result_of (EvaluateWork hash (repeat x07 20) (fresh signed)).
Proof.
  split.
  - eapply (ProvedWork_spec hash recover (fresh unsigned)).
    vm_compute. reflexivity.
  - destruct (ProvedWork_spec hash recover (fresh signed)) as [_ Hsigned].
    edestruct Hsigned as (id & wi & Hid & Hdiv & Hfloor & Heval).
    + apply world_ok_fresh.
    + vm_compute. reflexivity.
    + exists id, wi. split; [exact Hid | split; [| exact Heval]].
      apply Hfloor. rewrite Hid in *.
      vm_compute in Hid. injection Hid as <- _. zdecide.
Defined.

(** C10 with the degenerate hash, under which every id is zero. *)
Lemma idToWork_zero_witness :
  idToWork (repeat x00 32) = Panic DivisionByZero /\
  EvaluateWork hash_zero (repeat x07 20) (fresh signed) = Panic DivisionByZero /\
  ProvedWork hash_zero recover (fresh signed) = Panic DivisionByZero /\
  (forall v, idToWork invalidTxID = Done v -> v = MaxBig256 / MaxBig256).
Proof.
  destruct (idToWork_zero_id_panics hash_zero recover)
    as (Hzero & _ & Hdone & Heval & Hproved).
  split; [exact Hzero | split; [| split]].
  - eapply (Heval (fresh signed)). vm_compute. reflexivity.
  - eapply (Hproved (fresh signed)).
    + apply world_ok_fresh.
    + vm_compute. reflexivity.
    + vm_compute. reflexivity.
  - intros v Hv. apply (Hdone invalidTxID v Hv).
Defined.

(** C3 on the signed sample: a head 31 blocks past the reference gives
    the plain gas price; a head 5 blocks past it adds the work term. *)
Lemma OverallGasPrice_witness :
  result_of (OverallGasPrice hash recover MaxTxWorkDelay workToGas
                             1000 36 getBlockID (fresh signed))
  = Done (GasPrice (mkTx signed empty_cache) 1000) /\
  (result_of (ProvedWork hash recover (fresh unsigned)) = Done 0 /\
   result_of (OverallGasPrice hash recover MaxTxWorkDelay workToGas
                              1000 36 getBlockID (fresh unsigned))
   = Done (GasPrice (mkTx unsigned empty_cache) 1000)) /\
  exists work w',
    ProvedWork hash recover (fresh signed) = Done (work, w') /\
    OverallGasPrice hash recover MaxTxWorkDelay workToGas
                    1000 10 getBlockID (fresh signed)
    = Done (GasPrice (mkTx signed empty_cache) 1000
            + (Z.min (workToGas work 10) 21000 * 1000) / 21000, w').
Proof.
  split; [| split].
  - destruct (OverallGasPrice_spec hash recover MaxTxWorkDelay workToGas
                (fresh signed) 1000 36 getBlockID) as [Hlate _].
    rewrite Hlate; [reflexivity | zdecide].
  - destruct (OverallGasPrice_spec hash recover MaxTxWorkDelay workToGas
                (fresh unsigned) 1000 36 getBlockID) as (_ & Hunsigned & _).
    eapply Hunsigned; [zdecide | vm_compute; reflexivity].
  - destruct (OverallGasPrice_spec hash recover MaxTxWorkDelay workToGas
                (fresh signed) 1000 10 getBlockID) as (_ & _ & Hin).
    eexists. eexists. split; [vm_compute; reflexivity |].
    eapply Hin; [zdecide | vm_compute; reflexivity | zdecide].
Defined.

(** C9 on the sample with [Gas = 0]: a panic within the delay, the plain
    price beyond it. *)
Lemma OverallGasPrice_zero_gas_witness :
  OverallGasPrice hash recover MaxTxWorkDelay workToGas
                  1000 10 getBlockID (fresh zero_gas)
  = Panic DivisionByZero /\
  (0 < Gas zero_gas \/
   MaxTxWorkDelay
   < measureDelay MaxTxWorkDelay (mkTx zero_gas empty_cache) 36 getBlockID).
Proof.
  split.
  - eapply (OverallGasPrice_zero_gas_panics hash recover MaxTxWorkDelay
              workToGas (fresh zero_gas) 1000 10 getBlockID).
    + reflexivity.
    + zdecide.
  - eapply (OverallGasPrice_zero_gas_panics hash recover MaxTxWorkDelay
              workToGas (fresh zero_gas) 1000 36 getBlockID).
    + zdecide.
    + vm_compute. reflexivity.
Defined.

(** C7 on the sample heap: signing the unsigned transaction at location 2
    leaves it as it was, and the new transaction has its signing hash. *)
Lemma WithSignature_witness :
  exists l s' newTx,
    WithSignature 2%positive [x0a; x0b] heap0 = Done (l, s') /\
    heap s' !! l = Some newTx /\
    Signature (tx_body newTx) = [x0a; x0b] /\
    heap s' !! 2%positive = Some (mkTx unsigned empty_cache) /\
    heap_result (invoke 2%positive (ID hash recover) s')
    = heap_result (invoke 2%positive (ID hash recover) heap0) /\
    heap_result (invoke l (SigningHash hash) s')
    = heap_result (invoke 2%positive (SigningHash hash) heap0).
Proof.
  destruct (WithSignature_frame hash recover heap0 2%positive [x0a; x0b]
              (mkTx unsigned empty_cache) eq_refl)
    as (l & s' & newTx & Hrun & _ & Hnew & Hbody & Hold & _ & Hid & _ & _ & _
        & Hhash).
  exists l, s', newTx.
  split; [exact Hrun | split; [exact Hnew | split; [apply Hbody |]]].
  split; [exact Hold | split; [exact Hid |]].
  apply Hhash. apply world_ok_fresh.
Defined.

Lemma sample_body_valid : valid_body unsigned.
Proof.
  unfold valid_body, is_u64.
  split; [split; zdecide |]. split; [split; zdecide |].
  split; [split; zdecide |].
  split; [| split; [intros d Hd; discriminate Hd | zdecide]].
  repeat constructor; try zdecide; intros a Ha; try discriminate Ha.
  injection Ha as <-. reflexivity.
Defined.

(** C6 on the unsigned sample, which has reserved entries and a nil
    [DependsOn]. *)
Lemma decode_encode_body_witness :
  Codec.decode_body (Codec.encode_body unsigned) = Some unsigned /\
  DecodeRLP (EncodeRLP (mkTx unsigned empty_cache)) (fresh signed)
  = Done (None, fresh unsigned).
Proof.
  destruct (decode_encode_body unsigned sample_body_valid) as (Hrt & _ & Hdec).
  split; [exact Hrt |].
  apply (Hdec (mkTx unsigned empty_cache) (fresh signed)). reflexivity.
Defined.

(* ====================================================================== *)
(** * The signer cache across transaction objects *)
(* ====================================================================== *)

(** X20. The signer cache is shared by all transaction objects: once
    [Signer] has succeeded on a transaction whose signer field was unset,
    [Signer] on any object with the same body and an unset signer field,
    run against the signer cache the first call left, returns the same
    address from the cache; no recovery takes place, so the result holds
    for every recovery function. *)
Theorem Signer_cache_is_shared
        (keccak256 : list byte -> Bytes32)
        (recoverAddress recoverAddress' : Bytes32 -> list byte -> option Address)
        (w w' : world) (s : Address) (c : cacheT) :
  c_signer (tx_cache (self w)) = None ->
  Signer keccak256 recoverAddress w = Done ((s, None), w') ->
  c_signer c = None ->
  exists w'',
    Signer keccak256 recoverAddress'
           (mkWorld (mkTx (tx_body (self w)) c) (signerCache w'))
    = Done ((s, None), w'') /\
    c_signer (tx_cache (self w'')) = Some s.
Proof.
  intros Hunset Hrun Hc.
  destruct (Signer_success_effect keccak256 recoverAddress w s w' Hrun)
    as (_ & _ & Hlru).
  specialize (Hlru Hunset).
  destruct c as [sh sg i sz]. cbn in Hc. subst sg.
  unfold Signer, bind, get_cache, get_body, signerCache_Get, LRU.get.
  cbn [self tx_cache tx_body c_signer signerCache].
  unfold fingerprintOf in Hlru. rewrite Hlru.
  eexists. split; reflexivity.
Qed.

(* ====================================================================== *)
(** * The further properties on sample values *)
(* ====================================================================== *)

Lemma signed_body_valid : valid_body signed.
Proof.
  unfold valid_body, is_u64.
  split; [split; zdecide |]. split; [split; zdecide |].
  split; [split; zdecide |].
  split; [| split; [intros d Hd; discriminate Hd | zdecide]].
  repeat constructor; try zdecide; intros a Ha; try discriminate Ha.
  injection Ha as <-. reflexivity.
Defined.

(** X1 on the unsigned sample. *)
Lemma Signer_failure_witness :
  exists w',
    Signer hash recover (fresh unsigned)
    = Done ((zeroAddress, Some ErrSigRecovery), w') /\
    c_signer (tx_cache (self w')) = None /\
    signerCache w' = [].
Proof.
  assert (Hrun : exists w', Signer hash recover (fresh unsigned)
                            = Done ((zeroAddress, Some ErrSigRecovery), w'))
    by (vm_compute; eexists; reflexivity).
  destruct Hrun as [w' Hrun]. exists w'. split; [exact Hrun |].
  destruct (Signer_failure_not_cached hash recover (fresh unsigned) _ _ w' Hrun)
    as (_ & _ & Hsg & Hsc & _).
  split; [exact Hsg | exact Hsc].
Defined.

(** X2 on the signed sample. *)
Lemma Signer_success_witness :
  exists w',
    Signer hash recover (fresh signed) = Done ((repeat x07 20, None), w') /\
    Signer hash recover w' = Done ((repeat x07 20, None), w') /\
    LRU.find (fingerprintOf hash signed) (signerCache w') = Some (repeat x07 20).
Proof.
  assert (Hrun : exists w', Signer hash recover (fresh signed)
                            = Done ((repeat x07 20, None), w'))
    by (vm_compute; eexists; reflexivity).
  destruct Hrun as [w' Hrun]. exists w'. split; [exact Hrun |].
  destruct (Signer_success_cached hash recover (fresh signed) _ w' Hrun)
    as (_ & Hagain & _ & Hlru).
  split; [exact Hagain | apply Hlru; reflexivity].
Defined.

(** X3 on the signed sample. *)
Lemma ID_stable_witness :
  exists i w',
    ID hash recover (fresh signed) = Done (i, w') /\
    ID hash recover w' = Done (i, w') /\
    exists h w'', SigningHash hash (fresh signed) = Done (h, w'') /\
                  SigningHash hash w'' = Done (h, w'').
Proof.
  assert (Hid : exists i w', ID hash recover (fresh signed) = Done (i, w'))
    by (vm_compute; eexists; eexists; reflexivity).
  assert (Hsh : exists h w', SigningHash hash (fresh signed) = Done (h, w'))
    by (vm_compute; eexists; eexists; reflexivity).
  destruct Hid as (i & w' & Hid). destruct Hsh as (h & w'' & Hsh).
  destruct (ID_and_SigningHash_stable hash recover (fresh signed))
    as [Hstable_id Hstable_sh].
  exists i, w'. split; [exact Hid | split; [apply (Hstable_id i w' Hid) |]].
  exists h, w''. split; [exact Hsh | apply (Hstable_sh h w'' Hsh)].
Defined.

(** X4 on the signed sample, cold and after a first [ID] call. *)
Lemma identity_cold_warm_witness :
  exists i warm,
    ID hash recover (fresh signed) = Done (i, warm) /\
    result_of (Signer hash recover (fresh signed))
    = result_of (Signer hash recover warm) /\
    result_of (ID hash recover (fresh signed))
    = result_of (ID hash recover warm).
Proof.
  destruct (ID_spec hash recover (fresh signed) (world_ok_fresh hash recover signed))
    as (warm & Hid & Hok & Hb & _).
  exists (idOf hash recover signed), warm. split; [exact Hid |].
  destruct (identity_cold_warm hash recover (fresh signed) warm
              (world_ok_fresh hash recover signed) Hok (eq_sym Hb))
    as (Hsg & Hids & _).
  split; [exact Hsg | exact Hids].
Defined.

(** X5 on the signed sample. *)
Lemma work_methods_witness :
  exists work w',
    ProvedWork hash recover (fresh signed) = Done (work, w') /\
    world_ok hash recover w' /\ tx_body (self w') = signed.
Proof.
  assert (Hrun : exists work w', ProvedWork hash recover (fresh signed)
                                 = Done (work, w'))
    by (vm_compute; eexists; eexists; reflexivity).
  destruct Hrun as (work & w' & Hrun). exists work, w'. split; [exact Hrun |].
  destruct (work_methods_keep_invariant hash recover MaxTxWorkDelay workToGas
              (fresh signed) (world_ok_fresh hash recover signed))
    as (Hpw & _).
  apply (Hpw work w' Hrun).
Defined.

(** X6 on the unsigned sample and its signed copy. *)
Lemma EvaluateWork_witness :
  result_of (EvaluateWork hash (repeat x07 20) (fresh unsigned))
  = result_of (EvaluateWork hash (repeat x07 20) (fresh signed)).
Proof.
  apply (EvaluateWork_ignores_signature hash recover (fresh unsigned)
           (fresh signed) [x01; x02; x03]).
  - apply world_ok_fresh.
  - apply world_ok_fresh.
  - reflexivity.
Defined.

(** X7 on samples with coefficients 128 and 255. *)
Lemma GasPrice_bounds_witness :
  1000 <= GasPrice (mkTx unsigned empty_cache) 1000 <= 2 * 1000 /\
  GasPrice (mkTx only_create empty_cache) 1000 = 2 * 1000 /\
  GasPrice (mkTx unsigned empty_cache) 1000
  <= GasPrice (mkTx only_create empty_cache) 1000.
Proof.
  assert (Hb : 0 <= 1000) by zdecide.
  destruct (GasPrice_bounds (mkTx unsigned empty_cache) 1000 Hb)
    as (Hrange & _ & _ & Hmono).
  destruct (GasPrice_bounds (mkTx only_create empty_cache) 1000 Hb)
    as (_ & _ & Hfull & _).
  split; [exact Hrange | split; [apply Hfull; reflexivity |]].
  apply (Hmono (mkTx only_create empty_cache)). zdecide.
Defined.

(** X8 on the signed sample, five blocks after its reference. *)
Lemma OverallGasPrice_bounds_witness :
  exists price w',
    OverallGasPrice hash recover MaxTxWorkDelay workToGas 1000 10 getBlockID
                    (fresh signed) = Done (price, w') /\
    GasPrice (mkTx signed empty_cache) 1000 <= price
      <= GasPrice (mkTx signed empty_cache) 1000 + 1000 /\
    price <= 3 * 1000.
Proof.
  assert (Hrun : exists price w',
            OverallGasPrice hash recover MaxTxWorkDelay workToGas 1000 10
                            getBlockID (fresh signed) = Done (price, w'))
    by (vm_compute; eexists; eexists; reflexivity).
  destruct Hrun as (price & w' & Hrun). exists price, w'. split; [exact Hrun |].
  apply (OverallGasPrice_bounds hash recover MaxTxWorkDelay workToGas
           (fresh signed) 1000 10 getBlockID price w').
  - zdecide.
  - zdecide.
  - intros work. unfold workToGas. apply Z.mod_pos_bound. reflexivity.
  - exact Hrun.
Defined.

(** X9 on the sample reference to block 5. *)
Lemma measureDelay_range_witness :
  (measureDelay MaxTxWorkDelay (mkTx unsigned empty_cache) 10 getBlockID
   = MaxUint32 \/
   1 <= measureDelay MaxTxWorkDelay (mkTx unsigned empty_cache) 10 getBlockID
     <= MaxTxWorkDelay) /\
  (MaxTxWorkDelay
   < measureDelay MaxTxWorkDelay (mkTx unsigned empty_cache) 36 getBlockID
   <-> measureDelay MaxTxWorkDelay (mkTx unsigned empty_cache) 36 getBlockID
       = MaxUint32).
Proof.
  assert (H10 : is_u32 10) by (split; zdecide).
  assert (H36 : is_u32 36) by (split; zdecide).
  destruct (measureDelay_range MaxTxWorkDelay (mkTx unsigned empty_cache) 10
              getBlockID H10) as [Hcases _].
  destruct (measureDelay_range MaxTxWorkDelay (mkTx unsigned empty_cache) 36
              getBlockID H36) as [_ Hiff].
  split.
  - destruct Hcases as [Hs | (Hr & _)]; [left; exact Hs | right; exact Hr].
  - apply Hiff. zdecide.
Defined.

(** X10 on the two-clause sample and its clauses swapped. *)
Lemma IntrinsicGas_order_witness :
  IntrinsicGas TxGas ClauseGas ClauseGasContractCreation TxDataZeroGas
               TxDataNonZeroGas (mkTx unsigned empty_cache)
  = IntrinsicGas TxGas ClauseGas ClauseGasContractCreation TxDataZeroGas
                 TxDataNonZeroGas
                 (mkTx (mkBody x27 1 blockRef [call; create] x80 21000 None [] [])
                       empty_cache) /\
  dataGas TxDataZeroGas TxDataNonZeroGas [x01; x00]
  = dataGas TxDataZeroGas TxDataNonZeroGas [x00; x01].
Proof.
  destruct (IntrinsicGas_order_independent
              TxGas ClauseGas ClauseGasContractCreation TxDataZeroGas
              TxDataNonZeroGas sample_constants_ok) as [Hclauses Hdata].
  split.
  - apply Hclauses.
    + repeat constructor; zdecide.
    + apply perm_swap.
  - apply Hdata; [zdecide | apply perm_swap].
Defined.

(** X11 on the one-clause sample and the two-clause sample. *)
Lemma IntrinsicGas_shape_witness :
  exists g, IntrinsicGas TxGas ClauseGas ClauseGasContractCreation
                         TxDataZeroGas TxDataNonZeroGas
                         (mkTx only_create empty_cache) = (g, None) /\
            g <= 5000 + (3 * 4 + 2 * 68 + 48000) + (1 * 4 + 1 * 68 + 16000).
Proof.
  assert (Hlen : Forall (data_len_ok) (Clauses (tx_body (mkTx only_create empty_cache))))
    by (repeat constructor; zdecide).
  destruct (IntrinsicGas_result_shape
              TxGas ClauseGas ClauseGasContractCreation TxDataZeroGas
              TxDataNonZeroGas sample_constants_ok
              (mkTx only_create empty_cache) Hlen) as [_ Hmore].
  destruct (Hmore (mkTx unsigned empty_cache) call
              (5000 + (3 * 4 + 2 * 68 + 48000) + (1 * 4 + 1 * 68 + 16000)))
    as (g & Hg & _ & Hle).
  - discriminate.
  - reflexivity.
  - zdecide.
  - reflexivity.
  - exists g. split; [exact Hg | exact Hle].
Defined.

(** X12 on the sample without clauses and a plain transfer. *)
Lemma IntrinsicGas_default_witness :
  IntrinsicGas TxGas ClauseGas ClauseGasContractCreation TxDataZeroGas
               TxDataNonZeroGas (mkTx no_clauses empty_cache)
  = IntrinsicGas TxGas ClauseGas ClauseGasContractCreation TxDataZeroGas
                 TxDataNonZeroGas
                 (mkTx (mkBody x27 2 blockRef
                               [mkClause (Some (repeat x11 20)) 9 []]
                               x00 21000 None [] [])
                       empty_cache).
Proof.
  destruct (IntrinsicGas_no_clause_as_plain_call
              TxGas ClauseGas ClauseGasContractCreation TxDataZeroGas
              TxDataNonZeroGas (mkTx no_clauses empty_cache)
              (mkTx (mkBody x27 2 blockRef
                            [mkClause (Some (repeat x11 20)) 9 []]
                            x00 21000 None [] [])
                    empty_cache)
              (mkClause (Some (repeat x11 20)) 9 []) (repeat x11 20)
              sample_constants_ok eq_refl eq_refl eq_refl eq_refl)
    as [Hsame _].
  exact Hsame.
Defined.

(** X13 on the id of the signed sample. *)
Lemma idToWork_bounds_witness :
  exists v, idToWork (idOf hash recover signed) = Done v /\ 1 <= v <= MaxBig256.
Proof.
  assert (Hrun : exists v, idToWork (idOf hash recover signed) = Done v)
    by (vm_compute; eexists; reflexivity).
  destruct Hrun as [v Hv]. exists v. split; [exact Hv |].
  destruct idToWork_bounds as (Hrange & _).
  apply (Hrange (idOf hash recover signed) v); [reflexivity | exact Hv].
Defined.

(** X14 on the sample block reference. *)
Lemma BlockRef_bytes_witness :
  be_to_Z (Transaction_BlockRef (mkTx unsigned empty_cache)) = blockRef /\
  BlockRef_Number (Transaction_BlockRef (mkTx unsigned empty_cache))
  = blockRef / 2 ^ 32.
Proof.
  destruct (BlockRef_bytes (mkTx unsigned empty_cache)) as (_ & Hval & Hnum).
  - split; zdecide.
  - split; [exact Hval | exact Hnum].
Defined.

(** X15 on the sample heap: signing the unsigned transaction at
    location 2. *)
Lemma WithSignature_recomputes_witness :
  exists l s',
    WithSignature 2%positive [x0a; x0b] heap0 = Done (l, s') /\
    heap_result (invoke l (Signer hash recover) s')
    = Done (repeat x07 20, None).
Proof.
  destruct (WithSignature_recomputes hash recover heap0 2%positive [x0a; x0b]
              (mkTx unsigned empty_cache) eq_refl)
    as (l & s' & Hrun & _ & Hsg & _).
  - intros a Ha. discriminate Ha.
  - exists l, s'. split; [exact Hrun | exact Hsg].
Defined.

(** X16 on the unsigned and the signed sample: different bodies,
    different encodings. *)
Lemma encode_body_injective_witness :
  Codec.encode_body unsigned <> Codec.encode_body signed.
Proof.
  intros Henc.
  destruct (encode_body_injective unsigned signed sample_body_valid
              signed_body_valid) as (Hinj & _).
  discriminate (Hinj Henc).
Defined.

(** X20 on the signed sample: a second object with the same body, and a
    recovery that always fails. *)
Lemma Signer_cache_shared_witness :
  exists w' w'',
    Signer hash recover (fresh signed) = Done ((repeat x07 20, None), w') /\
    Signer hash (fun _ _ => None)
           (mkWorld (mkTx signed empty_cache) (signerCache w'))
    = Done ((repeat x07 20, None), w'').
Proof.
  assert (Hrun : exists w', Signer hash recover (fresh signed)
                            = Done ((repeat x07 20, None), w'))
    by (vm_compute; eexists; reflexivity).
  destruct Hrun as [w' Hrun].
  destruct (Signer_cache_is_shared hash recover (fun _ _ => None)
              (fresh signed) w' (repeat x07 20) empty_cache
              eq_refl Hrun eq_refl) as (w'' & Hshared & _).
  exists w', w''. split; [exact Hrun | exact Hshared].
Defined.

(** X18 on the unsigned sample, five blocks after its reference. *)
Lemma OverallGasPrice_unsigned_witness :
  result_of (OverallGasPrice hash recover MaxTxWorkDelay workToGas
                             1000 10 getBlockID (fresh unsigned))
  = Done (GasPrice (mkTx unsigned empty_cache) 1000).
Proof.
  eapply (OverallGasPrice_unsigned hash recover MaxTxWorkDelay workToGas
            (fresh unsigned) 1000 10 getBlockID).
  - vm_compute. reflexivity.
  - zdecide.
  - reflexivity.
Defined.

Lemma hash_digest_length bs : length (hash bs) = 32%nat.
Proof. reflexivity. Defined.

(** X19 on the signed sample: its proved work is not zero. *)
Lemma ProvedWork_zero_witness :
  result_of (ProvedWork hash recover (fresh signed)) <> Done 0.
Proof.
  intros Hzero.
  destruct (ProvedWork_zero_iff_unsigned hash recover (fresh signed)
              (world_ok_fresh hash recover signed) hash_digest_length)
    as [Hiff _].
  apply Hiff in Hzero. destruct Hzero as (a & e & w1 & Hfail).
  vm_compute in Hfail. discriminate Hfail.
Defined.

(** X17: decoding the unsigned sample into a receiver that holds the
    signed sample with a memoised id. *)
Lemma DecodeRLP_resets_witness :
  exists w',
    DecodeRLP (Codec.encode_body unsigned)
              (mkWorld (mkTx signed (mkCache None None (Some (repeat x05 32)) None)) [])
    = Done (None, w') /\
    result_of (ID hash recover w') = Done invalidTxID.
Proof.
  destruct (DecodeRLP_resets_cache hash recover unsigned
              (mkWorld (mkTx signed (mkCache None None (Some (repeat x05 32)) None)) [])
              sample_body_valid)
    as (w' & Hrun & _ & _ & _ & Hid).
  - intros a Ha. discriminate Ha.
  - exists w'. split; [exact Hrun | exact Hid].
Defined.
